(** * go-apdu: ISO 7816-4 command and response APDU codec

    A shallow embedding of [capdu.go] (ParseCapdu, Capdu.Bytes,
    Capdu.BytesExtended), of the earlier revision of the command file
    (ParseCapdu, BytesExtended) and of the response file (ParseRapdu,
    Rapdu.Bytes, the status predicates), followed by the properties of the
    codec.

    Modelling conventions
    - a Go [byte] is a [Byte.byte]; [int(b)] is [Z_of_byte b] and the
      truncating conversion [byte(n)] is [byte_of_Z n];
    - a Go [int] is a [Z]: the code only compares, shifts, masks and
      truncates its ints and adds small constants to lengths, which is the
      same on [Z] and on 64-bit two's complement; [>>] and [&] are
      [Z.shiftr] and [Z.land];
    - a [[]byte] is a [list byte]; a nil slice and an empty slice are both
      the empty list;
    - a Go function returning [(T, error)] returns a [result T]; an index or
      slice expression that is out of range is the third outcome [Panic]. *)

From Stdlib Require Import ZArith List Bool Lia.
From Stdlib Require Import Strings.Byte.
Import ListNotations.
Local Open Scope Z_scope.

(** ** Bytes and integers *)

Definition Z_of_byte (b : byte) : Z := Z.of_N (Byte.to_N b).

Definition byte_of_Z (n : Z) : byte :=
  match Byte.of_N (Z.to_N (n mod 256)) with
  | Some b => b
  | None => x00
  end.

Definition len {A : Type} (l : list A) : Z := Z.of_nat (length l).

(** ** Results: value, error or run-time panic *)

Inductive error : Type :=
| ErrCapduLength (n : Z)        (* "invalid length - Capdu must consist of ..." *)
| ErrHidLe (le : Z)             (* "invalid Le value %d in HID hack handler" *)
| ErrLcExtended (lc : Z)        (* "invalid Lc value - Lc indicates data length %d" *)
| ErrLcStandard (lc : Z)        (* "invalid Lc value - Lc indicates length %d" *)
| ErrCapduDataLen (n : Z)       (* "len of Capdu.Data %d exceeds maximum ..." *)
| ErrCapduNe (n : Z)            (* "ne %d exceeds maximum allowed length ..." *)
| ErrRapduLength (n : Z)        (* "invalid length - a RAPDU must consist of ..." *)
| ErrRapduDataLen (n : Z).      (* "len of Rapdu.Data %d exceeds maximum ..." *)

Inductive result (A : Type) : Type :=
| Ok (a : A)
| Err (e : error)
| Panic.

Arguments Ok {A} a.
Arguments Err {A} e.
Arguments Panic {A}.

Definition bind {A B : Type} (r : result A) (k : A -> result B) : result B :=
  match r with
  | Ok a => k a
  | Err e => Err e
  | Panic => Panic
  end.

Notation "x <- r ;; k" := (bind r (fun x => k))
  (at level 61, r at next level, right associativity).

(** The range errors of the serializers. *)
Definition is_range_error (e : error) : bool :=
  match e with
  | ErrCapduDataLen _ | ErrCapduNe _ | ErrRapduDataLen _ => true
  | _ => false
  end.

(** ** Slices

    [index c i] is [c[i]], [slice c lo hi] is [c[lo:hi]] and [slice_from c lo]
    is [c[lo:]].  Go checks a slice expression against the capacity of [c];
    the model checks it against the length, which is never larger, so a run
    without [Panic] here is a run without a panic there, and one that reads
    no byte past [len(c)]. *)

Definition index (c : list byte) (i : Z) : result byte :=
  if (i <? 0) || (len c <=? i) then Panic
  else match nth_error c (Z.to_nat i) with
       | Some b => Ok b
       | None => Panic
       end.

Definition slice (c : list byte) (lo hi : Z) : result (list byte) :=
  if (lo <? 0) || (hi <? lo) || (len c <? hi) then Panic
  else Ok (firstn (Z.to_nat (hi - lo)) (skipn (Z.to_nat lo) c)).

Definition slice_from (c : list byte) (lo : Z) : result (list byte) :=
  slice c lo (len c).

(** [binary.BigEndian.Uint16(b)]: [_ = b[1]] and then
    [uint16(b[1]) | uint16(b[0])<<8]. *)
Definition Uint16 (b : list byte) : result Z :=
  b1 <- index b 1 ;;
  b0 <- index b 0 ;;
  Ok (Z.lor (Z_of_byte b1) (Z.shiftl (Z_of_byte b0) 8)).

(** ** Constants *)

Definition OffsetCLA : Z := 0.
Definition OffsetINS : Z := 1.
Definition OffsetP1 : Z := 2.
Definition OffsetP2 : Z := 3.
Definition OffsetLcStandard : Z := 4.
Definition OffsetLcExtended : Z := 5.
Definition OffsetCdataStandard : Z := 5.
Definition OffsetCdataExtended : Z := 7.
Definition MaxLenCommandDataStandard : Z := 255.
Definition MaxLenCommandDataExtended : Z := 65535.
Definition LenHeader : Z := 4.
Definition LenLcStandard : Z := 1.
Definition LenLeStandard : Z := 1.
Definition LenLcExtended : Z := 3.
Definition LenLeExtended : Z := 2.
Definition MaxLenResponseDataStandard : Z := 256.
Definition MaxLenResponseDataExtended : Z := 65536.
Definition LenResponseTrailer : Z := 2.

(** ** The command APDU *)

Record Capdu : Type := mkCapdu {
  CLA : byte;
  INS : byte;
  P1 : byte;
  P2 : byte;
  Data : list byte;
  Ne : Z
}.

(** The struct literal
    [Capdu{CLA: c[OffsetCLA], INS: c[OffsetINS], P1: c[OffsetP1],
           P2: c[OffsetP2], Data: data, Ne: ne}] that ends every successful
    branch of the parser. *)
Definition header_with (c : list byte) (data : list byte) (ne : Z)
  : result Capdu :=
  cla <- index c OffsetCLA ;;
  ins <- index c OffsetINS ;;
  p1 <- index c OffsetP1 ;;
  p2 <- index c OffsetP2 ;;
  Ok (mkCapdu cla ins p1 p2 data ne).

(** [ParseCapdu] of capdu.go. *)
Definition ParseCapdu (c : list byte) : result Capdu :=
  if (len c <? LenHeader) || (len c >? 65544) then Err (ErrCapduLength (len c))
  else if len c =? LenHeader then
    (* CASE 1 command: only HEADER *)
    header_with c [] 0
  else if len c =? LenHeader + LenLeStandard then
    (* STANDARD CASE 2 command: HEADER | Le *)
    b <- index c OffsetLcStandard ;;
    let ne := Z_of_byte b in
    if ne =? 0 then header_with c [] MaxLenResponseDataStandard
    else header_with c [] ne
  else
    b4 <- index c OffsetLcStandard ;;
    if Byte.eqb b4 x00 then
      if len c =? LenHeader + 1 + LenLeExtended then
        (* EXTENDED CASE 2 command: HEADER | Le *)
        s <- slice_from c OffsetLcExtended ;;
        le <- Uint16 s ;;
        let ne := if le =? 0 then MaxLenResponseDataExtended else le in
        header_with c [] ne
      else if len c =? LenHeader + 2 then
        (* Dodgy broken HID reader request *)
        le <- index c 5 ;;
        if negb (Byte.eqb le x00) then Err (ErrHidLe (Z_of_byte le))
        else header_with c [] 256
      else
        let bodyLen := len c - LenHeader in
        s <- slice_from c OffsetLcExtended ;;
        lc <- Uint16 s ;;
        if negb (lc =? bodyLen - LenLcExtended)
           && negb (lc =? bodyLen - LenLcExtended - LenLeExtended)
        then Err (ErrLcExtended lc)
        else
          data <- slice c OffsetCdataExtended (OffsetCdataExtended + lc) ;;
          if len c =? LenHeader + LenLcExtended + len data then
            (* EXTENDED CASE 3 command: HEADER | Lc | DATA *)
            header_with c data 0
          else
            (* EXTENDED CASE 4 command: HEADER | Lc | DATA | Le *)
            t <- slice_from c (len c - 2) ;;
            le <- Uint16 t ;;
            let ne := if le =? 0 then MaxLenResponseDataExtended else le in
            header_with c data ne
    else
      let bodyLen := len c - LenHeader in
      (* check if Lc indicates valid length *)
      let lc := Z_of_byte b4 in
      if negb (lc =? bodyLen - LenLcStandard)
         && negb (lc =? bodyLen - LenLcStandard - 1)
      then Err (ErrLcStandard lc)
      else
        data <- slice c OffsetCdataStandard (OffsetCdataStandard + lc) ;;
        if len c =? LenHeader + LenLcStandard + len data then
          (* STANDARD CASE 3 command: HEADER | Lc | DATA *)
          header_with c data 0
        else
          (* STANDARD CASE 4 command: HEADER | Lc | DATA | Le *)
          l <- index c (len c - 1) ;;
          let le := Z_of_byte l in
          let ne := if le =? 0 then MaxLenResponseDataStandard else le in
          header_with c data ne.

Definition hx (l : list Z) : list byte := map byte_of_Z l.

(** [Capdu.BytesExtended] of capdu.go. *)
Definition BytesExtended (c : Capdu) : result (list byte) :=
  let dataLen := len (Data c) in
  if dataLen >? MaxLenCommandDataExtended then Err (ErrCapduDataLen (len (Data c)))
  else if Ne c >? MaxLenResponseDataExtended then Err (ErrCapduNe (len (Data c)))
  else
    let result := [CLA c; INS c; P1 c; P2 c; x00] in
    let result :=
      if dataLen >? 0 then
        (result ++ [byte_of_Z (Z.land (Z.shiftr dataLen 8) 0xFF);
                    byte_of_Z (Z.land dataLen 0xFF)]) ++ Data c
      else result in
    let result :=
      if (Ne c >? 0) || (dataLen =? 0) then
        result ++ [byte_of_Z (Z.land (Z.shiftr (Ne c) 8) 0xFF);
                   byte_of_Z (Z.land (Ne c) 0xFF)]
      else result in
    Ok result.

(** [Capdu.Bytes] of capdu.go. *)
Definition Bytes (c : Capdu) : result (list byte) :=
  let dataLen := len (Data c) in
  if dataLen >? MaxLenCommandDataExtended then Err (ErrCapduDataLen (len (Data c)))
  else if Ne c >? MaxLenResponseDataExtended then Err (ErrCapduNe (len (Data c)))
  else if (dataLen >? MaxLenCommandDataStandard)
          || (Ne c >? MaxLenResponseDataStandard) then BytesExtended c
  else if (len (Data c) =? 0) && (Ne c =? 0) then
    (* CASE 1: HEADER *)
    Ok [CLA c; INS c; P1 c; P2 c]
  else if (len (Data c) =? 0) && (Ne c >? 0) then
    (* CASE 2: HEADER | Le *)
    Ok [CLA c; INS c; P1 c; P2 c; byte_of_Z (Z.land (Ne c) 0xFF)]
  else if negb (len (Data c) =? 0) && (Ne c =? 0) then
    (* CASE 3: HEADER | Lc | DATA *)
    Ok ([CLA c; INS c; P1 c; P2 c; byte_of_Z dataLen] ++ Data c)
  else
    (* CASE 4: HEADER | Lc | DATA | Le *)
    Ok (([CLA c; INS c; P1 c; P2 c; byte_of_Z dataLen] ++ Data c)
          ++ [byte_of_Z (Ne c)]).

(** [IsExtendedLength] of capdu.go. *)
Definition IsExtendedLength (c : Capdu) : bool :=
  (Ne c >? MaxLenResponseDataStandard)
  || (len (Data c) >? MaxLenCommandDataStandard).

(** ** The earlier revision of the command parser

    The second copy of the package's command file: the zero-byte check comes
    before the standard case 2 check, guarded by [len(c[OffsetLcExtended:]) > 0],
    and the HID handler reads its Le as a 16-bit value from offset 4. *)
Module Part000.

Definition LenLCStandard : Z := 1.
Definition LenLCExtended : Z := 3.

Definition ParseCapdu (c : list byte) : result Capdu :=
  if (len c <? LenHeader) || (len c >? 65544) then Err (ErrCapduLength (len c))
  else if len c =? LenHeader then
    (* CASE 1 command: only HEADER *)
    header_with c [] 0
  else
    let standard (_ : unit) : result Capdu :=
      if len c =? LenHeader + LenLCStandard then
        (* STANDARD CASE 2 command: HEADER | LE *)
        b <- index c OffsetLcStandard ;;
        let ne := Z_of_byte b in
        if ne =? 0 then header_with c [] MaxLenResponseDataStandard
        else header_with c [] ne
      else
        let bodyLen := len c - LenHeader in
        b <- index c OffsetLcStandard ;;
        let lc := Z_of_byte b in
        if negb (lc =? bodyLen - LenLCStandard)
           && negb (lc =? bodyLen - LenLCStandard - 1)
        then Err (ErrLcStandard lc)
        else
          data <- slice c OffsetCdataStandard (OffsetCdataStandard + lc) ;;
          if len c =? LenHeader + LenLCStandard + len data then
            (* STANDARD CASE 3 command: HEADER | LC | DATA *)
            header_with c data 0
          else
            (* STANDARD CASE 4 command: HEADER | LC | DATA | LE *)
            l <- index c (len c - 1) ;;
            let le := Z_of_byte l in
            let ne := if le =? 0 then MaxLenResponseDataStandard else le in
            header_with c data ne in
    (* check for zero byte *)
    b4 <- index c OffsetLcStandard ;;
    if Byte.eqb b4 x00 then
      (* check for extended length Capdu *)
      rest <- slice_from c OffsetLcExtended ;;
      if len rest >? 0 then
        if len c =? LenHeader + LenLCExtended then
          (* EXTENDED CASE 2 command: HEADER | LE *)
          s <- slice_from c OffsetLcExtended ;;
          le <- Uint16 s ;;
          let ne := if le =? 0 then MaxLenResponseDataExtended else le in
          header_with c [] ne
        else if len c =? LenHeader + 2 then
          (* Dodgy broken HID reader request *)
          s <- slice_from c OffsetLcStandard ;;
          le <- Uint16 s ;;
          if negb (le =? 0) then Err (ErrHidLe le)
          else header_with c [] 256
        else
          let bodyLen := len c - LenHeader in
          s <- slice c OffsetLcExtended (OffsetLcExtended + 2) ;;
          lc <- Uint16 s ;;
          if negb (lc =? bodyLen - LenLCExtended)
             && negb (lc =? bodyLen - LenLCExtended - 2)
          then Err (ErrLcExtended lc)
          else
            data <- slice c OffsetCdataExtended (OffsetCdataExtended + lc) ;;
            if len c =? LenHeader + LenLCExtended + len data then
              (* EXTENDED CASE 3 command: HEADER | LC | DATA *)
              header_with c data 0
            else
              (* EXTENDED CASE 4 command: HEADER | LC | DATA | LE *)
              t <- slice_from c (len c - 2) ;;
              le <- Uint16 t ;;
              let ne := if le =? 0 then MaxLenResponseDataExtended else le in
              header_with c data ne
      else standard tt
    else standard tt.

(** [Capdu.BytesExtended] of the earlier revision: the Lc field and the Le
    field are both always written. *)
Definition BytesExtended (c : Capdu) : result (list byte) :=
  let dataLen := len (Data c) in
  if dataLen >? MaxLenCommandDataExtended then Err (ErrCapduDataLen (len (Data c)))
  else if Ne c >? MaxLenResponseDataExtended then Err (ErrCapduNe (len (Data c)))
  else
    let lc := [x00; byte_of_Z (Z.land (Z.shiftr dataLen 8) 0xFF);
               byte_of_Z (Z.land dataLen 0xFF)] in
    let le :=
      if Ne c =? MaxLenResponseDataExtended then [x00; x00]
      else [byte_of_Z (Z.land (Z.shiftr (Ne c) 8) 0xFF);
            byte_of_Z (Z.land (Ne c) 0xFF)] in
    Ok ((([CLA c; INS c; P1 c; P2 c] ++ lc) ++ Data c) ++ le).

(** [Capdu.Bytes] of the earlier revision: the regime is chosen case by
    case, and only case 4 goes through [BytesExtended]. *)
Definition Bytes (c : Capdu) : result (list byte) :=
  let dataLen := len (Data c) in
  if dataLen >? MaxLenCommandDataExtended then Err (ErrCapduDataLen (len (Data c)))
  else if Ne c >? MaxLenResponseDataExtended then Err (ErrCapduNe (len (Data c)))
  else if (len (Data c) =? 0) && (Ne c =? 0) then
    (* CASE 1: HEADER *)
    Ok [CLA c; INS c; P1 c; P2 c]
  else if (len (Data c) =? 0) && (Ne c >? 0) then
    (* CASE 2: HEADER | LE *)
    if Ne c >? MaxLenResponseDataStandard then
      let le :=
        if Ne c =? MaxLenResponseDataExtended then [x00; x00; x00]
        else [x00; byte_of_Z (Z.land (Z.shiftr (Ne c) 8) 0xFF);
              byte_of_Z (Z.land (Ne c) 0xFF)] in
      Ok ([CLA c; INS c; P1 c; P2 c] ++ le)
    else
      (* standard format *)
      let result := [CLA c; INS c; P1 c; P2 c] in
      if Ne c =? MaxLenResponseDataStandard then Ok (result ++ [x00])
      else Ok (result ++ [byte_of_Z (Ne c)])
  else if negb (len (Data c) =? 0) && (Ne c =? 0) then
    (* CASE 3: HEADER | LC | DATA *)
    if len (Data c) >? MaxLenCommandDataStandard then
      (* extended length format *)
      let lc := [x00; byte_of_Z (Z.land (Z.shiftr dataLen 8) 0xFF);
                 byte_of_Z (Z.land dataLen 0xFF)] in
      Ok (([CLA c; INS c; P1 c; P2 c] ++ lc) ++ Data c)
    else
      (* standard format *)
      Ok ([CLA c; INS c; P1 c; P2 c; byte_of_Z dataLen] ++ Data c)
  else
    (* CASE 4: HEADER | LC | DATA | LE *)
    if (Ne c >? MaxLenResponseDataStandard)
       || (len (Data c) >? MaxLenCommandDataStandard) then BytesExtended c
    else
      (* standard format *)
      Ok (([CLA c; INS c; P1 c; P2 c; byte_of_Z dataLen] ++ Data c)
            ++ [byte_of_Z (Ne c)]).

End Part000.

(** ** The response APDU

    The field [Data] of [Rapdu] is [RData] here and the method [Rapdu.Bytes]
    is [RapduBytes]: the names are taken by the command APDU. *)

Record Rapdu : Type := mkRapdu {
  RData : list byte;
  SW1 : byte;
  SW2 : byte
}.

(** [uint16(r.SW1)<<8 | uint16(r.SW2)] *)
Definition SW (r : Rapdu) : Z :=
  Z.lor (Z.shiftl (Z_of_byte (SW1 r)) 8) (Z_of_byte (SW2 r)).

Definition ParseRapdu (b : list byte) : result Rapdu :=
  if (len b <? LenResponseTrailer) || (len b >? 65538)
  then Err (ErrRapduLength (len b))
  else if len b =? LenResponseTrailer then
    sw1 <- index b 0 ;;
    sw2 <- index b 1 ;;
    Ok (mkRapdu [] sw1 sw2)
  else
    data <- slice b 0 (len b - LenResponseTrailer) ;;
    sw1 <- index b (len b - 2) ;;
    sw2 <- index b (len b - 1) ;;
    Ok (mkRapdu data sw1 sw2).

Definition RapduBytes (r : Rapdu) : result (list byte) :=
  if len (RData r) >? MaxLenResponseDataExtended
  then Err (ErrRapduDataLen (len (RData r)))
  else Ok ((RData r) ++ [SW1 r; SW2 r]).

Definition IsSuccess (r : Rapdu) : bool :=
  Byte.eqb (SW1 r) x61 || (SW r =? 0x9000).

Definition IsWarning (r : Rapdu) : bool :=
  Byte.eqb (SW1 r) x62 || Byte.eqb (SW1 r) x63.

Definition IsError (r : Rapdu) : bool :=
  (Byte.eqb (SW1 r) x64 || Byte.eqb (SW1 r) x65)
  || ((0x67 <=? Z_of_byte (SW1 r)) && (Z_of_byte (SW1 r) <=? 0x6F)).

(** ** Closed form of the command parser

    [ParseCapdu_cases] is the decision tree of [ParseCapdu] with every index
    and slice already resolved; [ParseCapdu_closed_form] below proves that
    the parser computes exactly this, so no branch can reach [Panic]. *)

Definition byte_at (c : list byte) (i : Z) : byte := nth (Z.to_nat i) c x00.

Definition sub (c : list byte) (lo n : Z) : list byte :=
  firstn (Z.to_nat n) (skipn (Z.to_nat lo) c).

Definition be16 (hi lo : byte) : Z :=
  Z.lor (Z_of_byte lo) (Z.shiftl (Z_of_byte hi) 8).

Definition ne_std (le : Z) : Z := if le =? 0 then 256 else le.
Definition ne_ext (le : Z) : Z := if le =? 0 then 65536 else le.

Definition header_of (c : list byte) (data : list byte) (ne : Z) : Capdu :=
  mkCapdu (byte_at c 0) (byte_at c 1) (byte_at c 2) (byte_at c 3) data ne.

Definition ParseCapdu_cases (c : list byte) : result Capdu :=
  let n := len c in
  if (n <? 4) || (n >? 65544) then Err (ErrCapduLength n)
  else if n =? 4 then Ok (header_of c [] 0)
  else if n =? 5 then Ok (header_of c [] (ne_std (Z_of_byte (byte_at c 4))))
  else if Z_of_byte (byte_at c 4) =? 0 then
    if n =? 7 then
      Ok (header_of c [] (ne_ext (be16 (byte_at c 5) (byte_at c 6))))
    else if n =? 6 then
      if Z_of_byte (byte_at c 5) =? 0 then Ok (header_of c [] 256)
      else Err (ErrHidLe (Z_of_byte (byte_at c 5)))
    else
      let lc := be16 (byte_at c 5) (byte_at c 6) in
      if lc =? n - 7 then Ok (header_of c (sub c 7 lc) 0)
      else if lc =? n - 9 then
        Ok (header_of c (sub c 7 lc)
              (ne_ext (be16 (byte_at c (n - 2)) (byte_at c (n - 1)))))
      else Err (ErrLcExtended lc)
  else
    let lc := Z_of_byte (byte_at c 4) in
    if lc =? n - 5 then Ok (header_of c (sub c 5 lc) 0)
    else if lc =? n - 6 then
      Ok (header_of c (sub c 5 lc) (ne_std (Z_of_byte (byte_at c (n - 1)))))
    else Err (ErrLcStandard lc).

Definition ParseRapdu_cases (b : list byte) : result Rapdu :=
  let n := len b in
  if (n <? 2) || (n >? 65538) then Err (ErrRapduLength n)
  else Ok (mkRapdu (sub b 0 (n - 2)) (byte_at b (n - 2)) (byte_at b (n - 1))).

(** Parsing what a serializer returned ([Parse(Serialize(unit))]). *)
Definition parse_after {A : Type} (ser : result (list byte))
    (parse : list byte -> result A) : result A :=
  b <- ser ;; parse b.

(** The two bytes [(byte)((n>>8)&0xFF), (byte)(n&0xFF)] that the serializers
    append for a 16-bit length. *)
Definition hi16 (n : Z) : byte := byte_of_Z (Z.land (Z.shiftr n 8) 0xFF).
Definition lo16 (n : Z) : byte := byte_of_Z (Z.land n 0xFF).
Definition put16 (n : Z) : list byte := [hi16 n; lo16 n].

(** The all-empty command: no data and no expected response. *)
Definition select_empty : Capdu := mkCapdu x00 xa4 x04 x00 [] 0.

(** Two runs agree when both fail or both return the same value; a panic
    agrees with nothing. *)
Definition same_outcome {A : Type} (r1 r2 : result A) : Prop :=
  match r1, r2 with
  | Ok a, Ok b => a = b
  | Err _, Err _ => True
  | _, _ => False
  end.

(** ** The rest of the package

    The length of what [Bytes] returns for [n] data bytes and an expected
    response length [ne]: five bytes of header and sentinel, two of Lc before
    the data and two of Le in the extended regime; four of header, one of Lc
    and one of Le in the standard regime. *)
Definition encoded_len (n ne : Z) : Z :=
  if (255 <? n) || (256 <? ne) then
    5 + (if n =? 0 then 0 else 2 + n) + (if 0 <? ne then 2 else 0)
  else
    4 + (if n =? 0 then 0 else 1 + n) + (if ne =? 0 then 0 else 1).

(** *** The hex-string adapters

    A Go [string] is its sequence of bytes.  The three library functions the
    adapters call, [hex.DecodeString] (its error is [None]),
    [hex.EncodeToString] and [strings.ToUpper], are parameters.  An adapter
    returns its own error on the left, or what the byte parser returned on
    the right.  [Capdu.String] is [CapduString] and [Rapdu.String] is
    [RapduString]. *)

Inductive hex_error : Type :=
| ErrUnevenHex                 (* "uneven number of hex characters" *)
| ErrHexStringLength (n : Z)   (* "invalid length of hex string ... got %d" *)
| ErrHexConversion.            (* "hex conversion error" *)

Section HexAdapters.

Variable DecodeString : list byte -> option (list byte).
Variable EncodeToString : list byte -> list byte.
Variable ToUpper : list byte -> list byte.

Definition ParseCapduHexString (s : list byte) : hex_error + result Capdu :=
  if negb (Z.rem (len s) 2 =? 0) then inl ErrUnevenHex
  else if (len s <? 8) || (len s >? 65544 * 2)
  then inl (ErrHexStringLength (Z.quot (len s) 2))
  else match DecodeString s with
       | None => inl ErrHexConversion
       | Some b => inr (ParseCapdu b)
       end.

(** [Capdu.String] *)
Definition CapduString (c : Capdu) : result (list byte) :=
  b <- Bytes c ;; Ok (ToUpper (EncodeToString b)).

Definition ParseRapduHexString (s : list byte) : hex_error + result Rapdu :=
  if negb (Z.rem (len s) 2 =? 0) then inl ErrUnevenHex
  else if (len s <? 4) || (len s >? 131076)
  then inl (ErrHexStringLength (Z.quot (len s) 2))
  else match DecodeString s with
       | None => inl ErrHexConversion
       | Some b => inr (ParseRapdu b)
       end.

(** [Rapdu.String] *)
Definition RapduString (r : Rapdu) : result (list byte) :=
  b <- RapduBytes r ;; Ok (ToUpper (EncodeToString b)).

End HexAdapters.

(** *** An instance of the library contract

    A hex codec after the tables of [encoding/hex] and an ASCII upper-casing,
    used to instantiate the section above. *)

Definition hextable : list byte :=
  [x30; x31; x32; x33; x34; x35; x36; x37; x38; x39;
   x61; x62; x63; x64; x65; x66].

Definition hex_digit (n : Z) : byte := nth (Z.to_nat n) hextable x30.

Definition hex_encode (b : list byte) : list byte :=
  flat_map (fun x => [hex_digit (Z.shiftr (Z_of_byte x) 4);
                      hex_digit (Z.land (Z_of_byte x) 0x0F)]) b.

Definition upper_byte (x : byte) : byte :=
  if (0x61 <=? Z_of_byte x) && (Z_of_byte x <=? 0x7A)
  then byte_of_Z (Z_of_byte x - 0x20) else x.

Definition ascii_upper (s : list byte) : list byte := map upper_byte s.

Definition from_hex_char (x : byte) : option Z :=
  let v := Z_of_byte x in
  if (0x30 <=? v) && (v <=? 0x39) then Some (v - 0x30)
  else if (0x61 <=? v) && (v <=? 0x66) then Some (v - 0x61 + 10)
  else if (0x41 <=? v) && (v <=? 0x46) then Some (v - 0x41 + 10)
  else None.

Definition hex_pair (p q : byte) : option byte :=
  match from_hex_char p, from_hex_char q with
  | Some a, Some b => Some (byte_of_Z (Z.lor (Z.shiftl a 4) b))
  | _, _ => None
  end.

Fixpoint hex_decode (s : list byte) : option (list byte) :=
  match s with
  | [] => Some []
  | [_] => None
  | p :: q :: rest =>
      match hex_pair p q, hex_decode rest with
      | Some x, Some r => Some (x :: r)
      | _, _ => None
      end
  end.

(** ** Test vectors of the package's test files *)

Example ParseCapdu_invalid_length :
  ParseCapdu (hx [0x00; 0xA4; 0x04]) = Err (ErrCapduLength 3).
Proof. vm_compute. reflexivity. Qed.

Example ParseCapdu_standard_lc_too_big :
  ParseCapdu (hx [0x00; 0xA4; 0x04; 0x01; 0x05; 0x01; 0x02; 0x03; 0x04; 0x05;
                  0x06; 0x07; 0x08])
  = Err (ErrLcStandard 5).
Proof. vm_compute. reflexivity. Qed.

Example ParseCapdu_extended_lc_too_big :
  ParseCapdu (hx [0x00; 0xA4; 0x04; 0x01; 0x00; 0x00; 0x05; 0x01; 0x02; 0x03;
                  0x04])
  = Err (ErrLcExtended 5).
Proof. vm_compute. reflexivity. Qed.

Example ParseCapdu_extended_lc_too_small :
  ParseCapdu (hx [0x00; 0xA4; 0x04; 0x01; 0x00; 0x00; 0x05; 0x01; 0x02; 0x03;
                  0x04; 0x05; 0x06; 0x07; 0x08])
  = Err (ErrLcExtended 5).
Proof. vm_compute. reflexivity. Qed.

Example ParseCapdu_case1 :
  ParseCapdu (hx [0x00; 0xA4; 0x04; 0x00])
  = Ok (mkCapdu x00 xa4 x04 x00 [] 0).
Proof. vm_compute. reflexivity. Qed.

Example ParseCapdu_case2_std_le_zero :
  ParseCapdu (hx [0x00; 0xA4; 0x04; 0x00; 0x00])
  = Ok (mkCapdu x00 xa4 x04 x00 [] 256).
Proof. vm_compute. reflexivity. Qed.

Example ParseCapdu_case2_ext_le_nonzero :
  ParseCapdu (hx [0x00; 0xA4; 0x04; 0x00; 0x00; 0x01; 0x01])
  = Ok (mkCapdu x00 xa4 x04 x00 [] 257).
Proof. vm_compute. reflexivity. Qed.

Example ParseCapdu_case3_std :
  ParseCapdu (hx [0x00; 0xA4; 0x04; 0x00; 0x05; 0x01; 0x02; 0x03; 0x04; 0x05])
  = Ok (mkCapdu x00 xa4 x04 x00 [x01; x02; x03; x04; x05] 0).
Proof. vm_compute. reflexivity. Qed.

Example ParseCapdu_case3_ext :
  ParseCapdu (hx [0x00; 0xA4; 0x04; 0x01; 0x00; 0x00; 0x03; 0x01; 0x02; 0x03])
  = Ok (mkCapdu x00 xa4 x04 x01 [x01; x02; x03] 0).
Proof. vm_compute. reflexivity. Qed.

Example ParseCapdu_case4_std_le_nonzero :
  ParseCapdu (hx [0x00; 0xA4; 0x04; 0x00; 0x05; 0x01; 0x02; 0x03; 0x04; 0x05;
                  0x20])
  = Ok (mkCapdu x00 xa4 x04 x00 [x01; x02; x03; x04; x05] 32).
Proof. vm_compute. reflexivity. Qed.

Example ParseCapdu_case4_ext :
  ParseCapdu (hx [0x00; 0xA4; 0x04; 0x00; 0x00; 0x00; 0x03; 0x01; 0x02; 0x03;
                  0x00; 0x00])
  = Ok (mkCapdu x00 xa4 x04 x00 [x01; x02; x03] 65536).
Proof. vm_compute. reflexivity. Qed.

Example Part000_ParseCapdu_case2_std_le_zero :
  Part000.ParseCapdu (hx [0x00; 0xA4; 0x04; 0x00; 0x00])
  = Ok (mkCapdu x00 xa4 x04 x00 [] 256).
Proof. vm_compute. reflexivity. Qed.

Example Part000_ParseCapdu_case4_ext :
  Part000.ParseCapdu (hx [0x00; 0xA4; 0x04; 0x01; 0x00; 0x00; 0x03; 0x01; 0x02;
                          0x03; 0x01; 0x01])
  = Ok (mkCapdu x00 xa4 x04 x01 [x01; x02; x03] 257).
Proof. vm_compute. reflexivity. Qed.

Example Bytes_case2_std_le_zero :
  Bytes (mkCapdu x00 xa4 x04 x01 [] 256)
  = Ok (hx [0x00; 0xA4; 0x04; 0x01; 0x00]).
Proof. vm_compute. reflexivity. Qed.

Example Bytes_case3_std :
  Bytes (mkCapdu x00 xa4 x04 x01 [x01; x02; x03] 0)
  = Ok (hx [0x00; 0xA4; 0x04; 0x01; 0x03; 0x01; 0x02; 0x03]).
Proof. vm_compute. reflexivity. Qed.

Example Bytes_case4_std :
  Bytes (mkCapdu x00 xa4 x04 x01 [x01; x02] 3)
  = Ok (hx [0x00; 0xA4; 0x04; 0x01; 0x02; 0x01; 0x02; 0x03]).
Proof. vm_compute. reflexivity. Qed.

Example Bytes_case2_ext :
  Bytes (mkCapdu x00 xa4 x04 x01 [] 65535)
  = Ok (hx [0x00; 0xA4; 0x04; 0x01; 0x00; 0xFF; 0xFF]).
Proof. vm_compute. reflexivity. Qed.

Example Bytes_case2_ext_le_zero :
  Bytes (mkCapdu x00 xa4 x04 x01 [] 65536)
  = Ok (hx [0x00; 0xA4; 0x04; 0x01; 0x00; 0x00; 0x00]).
Proof. vm_compute. reflexivity. Qed.

Example Bytes_ne_invalid :
  Bytes (mkCapdu x00 xa4 x04 x01 [] 65537) = Err (ErrCapduNe 0).
Proof. vm_compute. reflexivity. Qed.

Example ParseRapdu_only_sw :
  ParseRapdu (hx [0x6A; 0x80]) = Ok (mkRapdu [] x6a x80).
Proof. vm_compute. reflexivity. Qed.

Example ParseRapdu_data_sw :
  ParseRapdu (hx [0x01; 0x02; 0x03; 0x90; 0x00])
  = Ok (mkRapdu [x01; x02; x03] x90 x00).
Proof. vm_compute. reflexivity. Qed.

Example IsError_6A88 :
  IsError (mkRapdu [] x6a x88) = true
  /\ IsSuccess (mkRapdu [] x6a x88) = false
  /\ IsWarning (mkRapdu [] x6a x88) = false.
Proof. vm_compute. repeat split. Qed.

(** ** Byte arithmetic *)

Lemma Z_of_byte_range (b : byte) : 0 <= Z_of_byte b < 256.
Proof.
  unfold Z_of_byte. pose proof (Byte.to_N_bounded b). lia.
Qed.

Lemma Z_of_byte_of_Z (n : Z) : Z_of_byte (byte_of_Z n) = n mod 256.
Proof.
  unfold Z_of_byte, byte_of_Z.
  assert (Hm : 0 <= n mod 256 < 256) by (apply Z.mod_pos_bound; lia).
  destruct (Byte.of_N (Z.to_N (n mod 256))) as [b|] eqn:E.
  - apply Byte.to_of_N in E. rewrite E. lia.
  - apply Byte.of_N_None_iff in E. lia.
Qed.

Lemma Z_of_byte_inj (a b : byte) : Z_of_byte a = Z_of_byte b -> a = b.
Proof.
  unfold Z_of_byte. intros H. apply N2Z.inj in H.
  assert (E : Byte.of_N (Byte.to_N a) = Byte.of_N (Byte.to_N b)) by (rewrite H; reflexivity).
  rewrite !Byte.of_to_N in E. congruence.
Qed.

Lemma byte_of_Z_of_byte (b : byte) : byte_of_Z (Z_of_byte b) = b.
Proof.
  apply Z_of_byte_inj. rewrite Z_of_byte_of_Z.
  apply Z.mod_small, Z_of_byte_range.
Qed.

Lemma Z_of_byte_small (n : Z) : 0 <= n < 256 -> Z_of_byte (byte_of_Z n) = n.
Proof. intros H. rewrite Z_of_byte_of_Z. apply Z.mod_small, H. Qed.

Lemma byte_eqb_Z (a b : byte) : Byte.eqb a b = (Z_of_byte a =? Z_of_byte b).
Proof.
  destruct (Z.eqb_spec (Z_of_byte a) (Z_of_byte b)) as [E|E].
  - apply Z_of_byte_inj in E. subst. apply Byte.byte_dec_lb. reflexivity.
  - destruct (Byte.eqb a b) eqn:H; [|reflexivity].
    apply Byte.byte_dec_bl in H. subst. congruence.
Qed.

Lemma byte_eqb_x00 (b : byte) : Byte.eqb b x00 = (Z_of_byte b =? 0).
Proof. rewrite byte_eqb_Z. reflexivity. Qed.

Lemma land_255 (n : Z) : Z.land n 0xFF = n mod 256.
Proof. change 0xFF with (Z.ones 8). rewrite Z.land_ones by lia. reflexivity. Qed.

Lemma be16_value (hi lo : byte) : be16 hi lo = 256 * Z_of_byte hi + Z_of_byte lo.
Proof.
  unfold be16.
  pose proof (Z_of_byte_range hi). pose proof (Z_of_byte_range lo).
  rewrite Z.shiftl_mul_pow2 by lia.
  assert (D : Z.land (Z_of_byte lo) (Z_of_byte hi * 2 ^ 8) = 0).
  { apply Z.bits_inj'. intros i Hi. rewrite Z.land_spec, Z.bits_0.
    destruct (Z.ltb_spec i 8).
    + rewrite Z.mul_pow2_bits_low by lia. apply andb_false_r.
    + replace (Z.testbit (Z_of_byte lo) i) with false; [reflexivity|].
      symmetry. apply Z.bits_above_log2; [lia|].
      destruct (Z.eq_dec (Z_of_byte lo) 0) as [->|]; [simpl; lia|].
      apply Z.log2_lt_pow2; [lia|].
      apply Z.lt_le_trans with (2 ^ 8); [change (2 ^ 8) with 256; lia|].
      apply Z.pow_le_mono_r; lia. }
  rewrite <- (Z.lxor_lor _ _ D), <- (Z.add_nocarry_lxor _ _ D).
  change (2 ^ 8) with 256. lia.
Qed.

Lemma be16_range (hi lo : byte) : 0 <= be16 hi lo < 65536.
Proof.
  rewrite be16_value.
  pose proof (Z_of_byte_range hi). pose proof (Z_of_byte_range lo). lia.
Qed.

Lemma be16_encode (n : Z) :
  be16 (byte_of_Z (Z.land (Z.shiftr n 8) 0xFF)) (byte_of_Z (Z.land n 0xFF))
  = n mod 65536.
Proof.
  rewrite be16_value, !Z_of_byte_of_Z, !land_255, !Z.mod_mod by lia.
  rewrite Z.shiftr_div_pow2 by lia. change (2 ^ 8) with 256.
  change 65536 with (256 * 256).
  rewrite Z.rem_mul_r by lia. lia.
Qed.

(** ** Lengths, indexing and slicing *)

Lemma len_nonneg {A : Type} (l : list A) : 0 <= len l.
Proof. unfold len. lia. Qed.

Lemma len_nil {A : Type} : len (@nil A) = 0.
Proof. reflexivity. Qed.

Lemma len_cons {A : Type} (a : A) (l : list A) : len (a :: l) = 1 + len l.
Proof. unfold len. simpl length. lia. Qed.

Lemma len_app {A : Type} (l r : list A) : len (l ++ r) = len l + len r.
Proof. unfold len. rewrite length_app. lia. Qed.

Lemma len_zero_nil {A : Type} (l : list A) : len l = 0 -> l = [].
Proof. destruct l; [reflexivity|]. rewrite len_cons. pose proof (len_nonneg l). lia. Qed.

Lemma index_ok (c : list byte) (i : Z) :
  0 <= i < len c -> index c i = Ok (byte_at c i).
Proof.
  intros H. unfold index, byte_at.
  destruct (Z.ltb_spec i 0); [lia|].
  destruct (Z.leb_spec (len c) i); [lia|]. simpl.
  rewrite (nth_error_nth' c x00); [reflexivity|].
  unfold len in *. lia.
Qed.

Lemma slice_ok (c : list byte) (lo hi : Z) :
  0 <= lo <= hi -> hi <= len c -> slice c lo hi = Ok (sub c lo (hi - lo)).
Proof.
  intros H1 H2. unfold slice, sub.
  destruct (Z.ltb_spec lo 0); [lia|].
  destruct (Z.ltb_spec hi lo); [lia|].
  destruct (Z.ltb_spec (len c) hi); [lia|]. reflexivity.
Qed.

Lemma len_sub (c : list byte) (lo n : Z) :
  0 <= lo -> 0 <= n -> lo + n <= len c -> len (sub c lo n) = n.
Proof.
  intros H1 H2 H3. unfold sub, len in *.
  rewrite length_firstn, length_skipn. lia.
Qed.

Lemma byte_at_sub (c : list byte) (lo n i : Z) :
  0 <= lo -> 0 <= i < n -> byte_at (sub c lo n) i = byte_at c (lo + i).
Proof.
  intros H1 H2. unfold byte_at, sub.
  rewrite nth_firstn.
  destruct (Nat.ltb_spec (Z.to_nat i) (Z.to_nat n)); [|lia].
  rewrite nth_skipn. f_equal. lia.
Qed.

Lemma Uint16_ok (s : list byte) :
  2 <= len s -> Uint16 s = Ok (be16 (byte_at s 0) (byte_at s 1)).
Proof.
  intros H. unfold Uint16. rewrite !index_ok by lia. reflexivity.
Qed.

Lemma header_with_ok (c data : list byte) (ne : Z) :
  4 <= len c -> header_with c data ne = Ok (header_of c data ne).
Proof.
  intros H. unfold header_with, header_of,
    OffsetCLA, OffsetINS, OffsetP1, OffsetP2.
  rewrite !index_ok by lia. reflexivity.
Qed.

(** ** Symbolic execution of the parsers *)

Ltac consts :=
  cbv [OffsetCLA OffsetINS OffsetP1 OffsetP2 OffsetLcStandard OffsetLcExtended
       OffsetCdataStandard OffsetCdataExtended MaxLenCommandDataStandard
       MaxLenCommandDataExtended LenHeader LenLcStandard LenLeStandard
       LenLcExtended LenLeExtended MaxLenResponseDataStandard
       MaxLenResponseDataExtended LenResponseTrailer
       Part000.LenLCStandard Part000.LenLCExtended] in *.

(** Split on the next integer test of the goal. *)
Ltac zif :=
  match goal with
  | |- context [if ?a <? ?b then _ else _] => destruct (Z.ltb_spec a b)
  | |- context [if ?a =? ?b then _ else _] => destruct (Z.eqb_spec a b)
  | |- context [(?a <? ?b) || _] => destruct (Z.ltb_spec a b)
  | |- context [negb (?a =? ?b)] => destruct (Z.eqb_spec a b)
  | |- context [(?a =? ?b) && _] => destruct (Z.eqb_spec a b)
  | |- context [(?a <? ?b) && _] => destruct (Z.ltb_spec a b)
  end; cbn [orb andb negb]; try lia.

(** Resolve the in-range accesses that head the goal. *)
Ltac run :=
  repeat first
    [ rewrite index_ok by lia
    | rewrite header_with_ok by lia
    | rewrite slice_ok by lia
    | rewrite Uint16_ok by (rewrite ?len_sub by lia; lia)
    | rewrite len_sub by lia
    | rewrite byte_at_sub by lia
    | rewrite byte_eqb_x00
    | rewrite Z.gtb_ltb
    | rewrite Z.add_0_r
    | rewrite Z.add_simpl_l
    | progress change (5 + 1) with 6
    | progress change (4 + 1) with 5 in *
    | progress change (4 + 2) with 6 in *
    | progress change (4 + 1 + 2) with 7 in *
    | progress change (4 + 3) with 7 in *
    | match goal with
      | |- context [?x - 2 + 1] => replace (x - 2 + 1) with (x - 1) by lia
      end
    | progress cbn [bind] ].

Lemma ParseCapdu_closed_form (c : list byte) : ParseCapdu c = ParseCapdu_cases c.
Proof.
  unfold ParseCapdu, ParseCapdu_cases, slice_from, ne_std, ne_ext.
  consts. cbv zeta.
  pose proof (be16_range (byte_at c 5) (byte_at c 6)) as Hlc.
  repeat (run; try zif; try reflexivity).
  all: try (repeat f_equal; lia).
Qed.

Lemma Part000_closed_form (c : list byte) :
  Part000.ParseCapdu c = ParseCapdu_cases c.
Proof.
  unfold Part000.ParseCapdu, ParseCapdu_cases, slice_from, ne_std, ne_ext.
  consts. cbv zeta beta.
  pose proof (be16_range (byte_at c 5) (byte_at c 6)) as Hlc.
  pose proof (be16_value (byte_at c 4) (byte_at c 5)) as Hhid.
  pose proof (Z_of_byte_range (byte_at c 5)) as H5.
  repeat (run; try zif; try reflexivity).
  all: try (repeat f_equal; lia).
Qed.

Lemma ParseRapdu_closed_form (b : list byte) : ParseRapdu b = ParseRapdu_cases b.
Proof.
  unfold ParseRapdu, ParseRapdu_cases. consts. cbv zeta.
  repeat (run; try zif; try reflexivity).
  - rewrite e. reflexivity.
  - rewrite Z.sub_0_r. reflexivity.
Qed.

Lemma ParseCapdu_cases_no_panic (c : list byte) : ParseCapdu_cases c <> Panic.
Proof.
  unfold ParseCapdu_cases. cbv zeta.
  repeat match goal with
         | |- context [if ?b then _ else _] => destruct b
         end; discriminate.
Qed.

(** The two slice expressions of [ParseCapdu] are guarded by the checks that
    precede them. *)
Lemma data_slice_standard_in_range (c : list byte) :
  6 <= len c ->
  Z_of_byte (byte_at c 4) = len c - 5 \/ Z_of_byte (byte_at c 4) = len c - 6 ->
  0 <= 5 <= 5 + Z_of_byte (byte_at c 4)
  /\ 5 + Z_of_byte (byte_at c 4) <= len c.
Proof. intros H1 H2. pose proof (Z_of_byte_range (byte_at c 4)). lia. Qed.

Lemma data_slice_extended_in_range (c : list byte) :
  8 <= len c ->
  be16 (byte_at c 5) (byte_at c 6) = len c - 7
  \/ be16 (byte_at c 5) (byte_at c 6) = len c - 9 ->
  0 <= 7 <= 7 + be16 (byte_at c 5) (byte_at c 6)
  /\ 7 + be16 (byte_at c 5) (byte_at c 6) <= len c.
Proof. intros H1 H2. pose proof (be16_range (byte_at c 5) (byte_at c 6)). lia. Qed.

Lemma byte_at_x00 (c : list byte) (i : Z) :
  byte_at c i = x00 <-> Z_of_byte (byte_at c i) = 0.
Proof.
  split; intros H.
  - rewrite H. reflexivity.
  - apply Z_of_byte_inj. rewrite H. reflexivity.
Qed.

(** C9.  Both parsers are total and never index or slice out of range: on
    every byte sequence, well formed or not, [ParseCapdu] and [ParseRapdu]
    return a value or an error, never [Panic].  (The two data slices are in
    range by [data_slice_standard_in_range] and
    [data_slice_extended_in_range].) *)
Theorem parsers_total (c : list byte) :
  ((exists v, ParseCapdu c = Ok v) \/ (exists e, ParseCapdu c = Err e))
  /\ ((exists r, ParseRapdu c = Ok r) \/ (exists e, ParseRapdu c = Err e)).
Proof.
  split.
  - pose proof (ParseCapdu_cases_no_panic c) as H.
    rewrite ParseCapdu_closed_form.
    destruct (ParseCapdu_cases c); [left|right|congruence]; eauto.
  - rewrite ParseRapdu_closed_form. unfold ParseRapdu_cases. cbv zeta.
    destruct (_ || _); [right|left]; eauto.
Qed.

(** C10.  The two revisions of the command parser agree on every input:
    either both fail, or both succeed with the same [Capdu]. *)
Theorem parser_variants_agree (c : list byte) :
  same_outcome (ParseCapdu c) (Part000.ParseCapdu c).
Proof.
  rewrite ParseCapdu_closed_form, Part000_closed_form.
  pose proof (ParseCapdu_cases_no_panic c) as H.
  destruct (ParseCapdu_cases c); simpl; [reflexivity|exact I|congruence].
Qed.

(** C6.  [ParseCapdu] returns its length error on every input shorter than
    4 or longer than 65544 bytes, [ParseRapdu] on every input shorter than 2
    or longer than 65538 bytes, and [Capdu.Bytes] returns a range error when
    the data is longer than 65535 bytes or [Ne] exceeds 65536. *)
Theorem boundary_rejection :
  (forall c, len c < 4 \/ 65544 < len c ->
     ParseCapdu c = Err (ErrCapduLength (len c)))
  /\ (forall b, len b < 2 \/ 65538 < len b ->
     ParseRapdu b = Err (ErrRapduLength (len b)))
  /\ (forall c, 65535 < len (Data c) \/ 65536 < Ne c ->
     exists e, Bytes c = Err e /\ is_range_error e = true).
Proof.
  repeat split.
  - intros c H. unfold ParseCapdu. consts. run.
    destruct (Z.ltb_spec (len c) 4); [reflexivity|].
    destruct (Z.ltb_spec 65544 (len c)); [reflexivity|lia].
  - intros b H. unfold ParseRapdu. consts. run.
    destruct (Z.ltb_spec (len b) 2); [reflexivity|].
    destruct (Z.ltb_spec 65538 (len b)); [reflexivity|lia].
  - intros c H. unfold Bytes. consts. cbv zeta. run.
    destruct (Z.ltb_spec 65535 (len (Data c))); [eexists; split; reflexivity|].
    destruct (Z.ltb_spec 65536 (Ne c)); [eexists; split; reflexivity|lia].
Qed.

Lemma boundary_rejection_witness :
  ParseCapdu (hx [0x00; 0xA4; 0x04]) = Err (ErrCapduLength 3)
  /\ ParseCapdu (repeat x00 (Z.to_nat 65545)) = Err (ErrCapduLength 65545)
  /\ ParseRapdu [x6a] = Err (ErrRapduLength 1)
  /\ ParseRapdu (repeat x00 (Z.to_nat 65539)) = Err (ErrRapduLength 65539)
  /\ (exists e, Bytes (mkCapdu x00 xa4 x04 x01 (repeat x00 (Z.to_nat 65536)) 0)
                = Err e /\ is_range_error e = true)
  /\ (exists e, Bytes (mkCapdu x00 xa4 x04 x01 [] 65537) = Err e
                /\ is_range_error e = true).
Proof.
  split; [|split; [|split; [|split; [|split]]]].
  - refine (proj1 boundary_rejection _ _). left. vm_compute. reflexivity.
  - refine (proj1 boundary_rejection _ _). right. vm_compute. reflexivity.
  - refine (proj1 (proj2 boundary_rejection) _ _). left. vm_compute. reflexivity.
  - refine (proj1 (proj2 boundary_rejection) _ _). right. vm_compute. reflexivity.
  - refine (proj2 (proj2 boundary_rejection) _ _). left. vm_compute. reflexivity.
  - refine (proj2 (proj2 boundary_rejection) _ _). right. vm_compute. reflexivity.
Defined.

Lemma SW_value (r : Rapdu) : SW r = 256 * Z_of_byte (SW1 r) + Z_of_byte (SW2 r).
Proof. unfold SW. rewrite Z.lor_comm. apply be16_value. Qed.

(** C7.  [IsSuccess] holds exactly when SW1 is 0x61 or the status word is
    0x9000, [IsWarning] exactly when SW1 is 0x62 or 0x63, [IsError] exactly
    when SW1 is 0x64, 0x65 or within 0x67..0x6F; the word 0x9000 is SW1 = 0x90
    with SW2 = 0x00; with SW1 = 0x60 or 0x66 all three predicates are false. *)
Theorem status_classification (r : Rapdu) :
  (IsSuccess r = true <-> SW1 r = x61 \/ SW r = 0x9000)
  /\ (IsWarning r = true <-> SW1 r = x62 \/ SW1 r = x63)
  /\ (IsError r = true <->
      (SW1 r = x64 \/ SW1 r = x65) \/ 0x67 <= Z_of_byte (SW1 r) <= 0x6F)
  /\ (SW r = 0x9000 <-> SW1 r = x90 /\ SW2 r = x00)
  /\ (SW1 r = x60 \/ SW1 r = x66 ->
      IsSuccess r = false /\ IsWarning r = false /\ IsError r = false).
Proof.
  pose proof (SW_value r) as HSW.
  pose proof (Z_of_byte_range (SW1 r)) as R1.
  pose proof (Z_of_byte_range (SW2 r)) as R2.
  assert (E : forall b, Byte.eqb (SW1 r) b = true <-> SW1 r = b).
  { intros b. split; [apply Byte.byte_dec_bl | apply Byte.byte_dec_lb]. }
  unfold IsSuccess, IsWarning, IsError.
  split; [|split; [|split; [|split]]].
  - rewrite orb_true_iff, E, Z.eqb_eq. tauto.
  - rewrite !orb_true_iff, !E. tauto.
  - rewrite !orb_true_iff, andb_true_iff, !E, !Z.leb_le. tauto.
  - split.
    + intros H. split; apply Z_of_byte_inj.
      * change (Z_of_byte x90) with 144. lia.
      * change (Z_of_byte x00) with 0. lia.
    + intros [H1 H2]. rewrite HSW, H1, H2. reflexivity.
  - intros H.
    assert (N : SW r <> 0x9000).
    { rewrite HSW. destruct H as [H|H]; rewrite H.
      - change (Z_of_byte x60) with 96. lia.
      - change (Z_of_byte x66) with 102. lia. }
    apply Z.eqb_neq in N. rewrite N.
    destruct H as [H|H]; rewrite H; repeat split; reflexivity.
Qed.

Lemma status_classification_witness :
  IsSuccess (mkRapdu [] x66 x00) = false
  /\ IsWarning (mkRapdu [] x66 x00) = false
  /\ IsError (mkRapdu [] x66 x00) = false.
Proof.
  refine (proj2 (proj2 (proj2 (proj2
            (status_classification (mkRapdu [] x66 x00))))) _).
  right. reflexivity.
Defined.

Lemma byte_at_not_x00 (c : list byte) (i : Z) :
  byte_at c i <> x00 <-> Z_of_byte (byte_at c i) <> 0.
Proof. rewrite byte_at_x00. tauto. Qed.

(** Unfold the closed form and decide its tests by arithmetic. *)
Ltac by_cases c :=
  rewrite (ParseCapdu_closed_form c); unfold ParseCapdu_cases; cbv zeta; rewrite ?Z.gtb_ltb;
  repeat (try zif; try reflexivity).

(** C2.  On an input of 6 to 65544 bytes: when byte 4 is not zero it is a
    one-byte Lc and the parse succeeds exactly when Lc is the body length
    minus 1 (case 3, Ne = 0) or minus 2 (case 4, Ne from the last byte), and
    fails with the Lc error otherwise; when byte 4 is zero and there are at
    least 8 bytes, bytes 5 and 6 are a big-endian Lc and the parse succeeds
    exactly when Lc is the body length minus 3 (case 3) or minus 5 (case 4, Ne
    from the last two bytes), and fails with the Lc error otherwise.  The
    data are the Lc bytes that follow the length field (offset 5, resp. 7). *)
Theorem case_determination (c : list byte) :
  6 <= len c <= 65544 ->
  (byte_at c 4 <> x00 ->
   (Z_of_byte (byte_at c 4) = len c - 4 - 1 ->
    ParseCapdu c = Ok (header_of c (sub c 5 (Z_of_byte (byte_at c 4))) 0))
   /\ (Z_of_byte (byte_at c 4) = len c - 4 - 2 ->
       ParseCapdu c
       = Ok (header_of c (sub c 5 (Z_of_byte (byte_at c 4)))
               (ne_std (Z_of_byte (byte_at c (len c - 1))))))
   /\ (Z_of_byte (byte_at c 4) <> len c - 4 - 1 ->
       Z_of_byte (byte_at c 4) <> len c - 4 - 2 ->
       ParseCapdu c = Err (ErrLcStandard (Z_of_byte (byte_at c 4)))))
  /\ (byte_at c 4 = x00 -> 8 <= len c ->
      (be16 (byte_at c 5) (byte_at c 6) = len c - 4 - 3 ->
       ParseCapdu c
       = Ok (header_of c (sub c 7 (be16 (byte_at c 5) (byte_at c 6))) 0))
      /\ (be16 (byte_at c 5) (byte_at c 6) = len c - 4 - 5 ->
          ParseCapdu c
          = Ok (header_of c (sub c 7 (be16 (byte_at c 5) (byte_at c 6)))
                  (ne_ext (be16 (byte_at c (len c - 2))
                                (byte_at c (len c - 1))))))
      /\ (be16 (byte_at c 5) (byte_at c 6) <> len c - 4 - 3 ->
          be16 (byte_at c 5) (byte_at c 6) <> len c - 4 - 5 ->
          ParseCapdu c
          = Err (ErrLcExtended (be16 (byte_at c 5) (byte_at c 6))))).
Proof.
  intros Hlen. split.
  - intros H4. apply byte_at_not_x00 in H4.
    repeat split; intros; by_cases c.
  - intros H4 H8. apply byte_at_x00 in H4.
    repeat split; intros; by_cases c.
Qed.

Lemma case_determination_witness :
  ParseCapdu (hx [0x00; 0xA4; 0x04; 0x00; 0x05; 0x01; 0x02; 0x03; 0x04; 0x05])
  = Ok (mkCapdu x00 xa4 x04 x00 [x01; x02; x03; x04; x05] 0)
  /\ ParseCapdu (hx [0x00; 0xA4; 0x04; 0x00; 0x00; 0x00; 0x03; 0x01; 0x02;
                     0x03; 0x00; 0x00])
     = Ok (mkCapdu x00 xa4 x04 x00 [x01; x02; x03] 65536)
  /\ ParseCapdu (hx [0x00; 0xA4; 0x04; 0x01; 0x00; 0x00; 0x05; 0x01; 0x02;
                     0x03; 0x04])
     = Err (ErrLcExtended 5).
Proof.
  split; [|split].
  - refine (proj1 (proj1 (case_determination _ _) _) _).
    + vm_compute. split; discriminate.
    + vm_compute. discriminate.
    + vm_compute. reflexivity.
  - refine (proj1 (proj2 (proj2 (case_determination _ _) _ _)) _).
    + vm_compute. split; discriminate.
    + vm_compute. reflexivity.
    + vm_compute. discriminate.
    + vm_compute. reflexivity.
  - refine (proj2 (proj2 (proj2 (case_determination _ _) _ _)) _ _).
    + vm_compute. split; discriminate.
    + vm_compute. reflexivity.
    + vm_compute. discriminate.
    + vm_compute. discriminate.
    + vm_compute. discriminate.
Defined.

(** C8.  A 6-byte input whose byte 4 is zero parses to empty data and
    Ne = 256 when its last byte is zero, and fails with the HID error for
    every other last byte; that error arises from no other input, and a
    6-byte input whose byte 4 is not zero never gives the HID result. *)
Theorem hid_variant :
  (forall c, len c = 6 -> byte_at c 4 = x00 ->
     (byte_at c 5 = x00 -> ParseCapdu c = Ok (header_of c [] 256))
     /\ (byte_at c 5 <> x00 ->
         ParseCapdu c = Err (ErrHidLe (Z_of_byte (byte_at c 5)))))
  /\ (forall c le, ParseCapdu c = Err (ErrHidLe le) ->
        len c = 6 /\ byte_at c 4 = x00 /\ byte_at c 5 <> x00
        /\ le = Z_of_byte (byte_at c 5))
  /\ (forall c, len c = 6 -> byte_at c 4 <> x00 ->
        ParseCapdu c <> Ok (header_of c [] 256)).
Proof.
  split; [|split].
  - intros c H6 H4. apply byte_at_x00 in H4. split; intros H5.
    + apply byte_at_x00 in H5. by_cases c.
    + apply byte_at_not_x00 in H5. by_cases c.
  - intros c le. rewrite ParseCapdu_closed_form. unfold ParseCapdu_cases.
    cbv zeta. rewrite ?Z.gtb_ltb, byte_at_not_x00, (byte_at_x00 c 4).
    repeat (try zif; try discriminate).
    intros Heq. injection Heq as <-. auto.
  - intros c H6 H4. apply byte_at_not_x00 in H4.
    rewrite ParseCapdu_closed_form. unfold ParseCapdu_cases. cbv zeta.
    rewrite ?Z.gtb_ltb.
    repeat (try zif; try discriminate).
Qed.

Lemma hid_variant_witness :
  ParseCapdu (hx [0x00; 0xA4; 0x04; 0x00; 0x00; 0x00])
  = Ok (mkCapdu x00 xa4 x04 x00 [] 256)
  /\ ParseCapdu (hx [0x00; 0xA4; 0x04; 0x00; 0x00; 0x05]) = Err (ErrHidLe 5).
Proof.
  split.
  - refine (proj1 (proj1 hid_variant _ _ _) _); reflexivity.
  - refine (proj2 (proj1 hid_variant _ _ _) _);
      try reflexivity. vm_compute. discriminate.
Defined.

(** ** Encodings laid out as header, data and trailer *)

Lemma byte_at_pre (H R : list byte) (i : Z) :
  0 <= i < len H -> byte_at (H ++ R) i = byte_at H i.
Proof.
  intros Hi. unfold byte_at, len in *. apply app_nth1. lia.
Qed.

Lemma byte_at_post (H D T : list byte) (i : Z) :
  len H + len D <= i ->
  byte_at (H ++ D ++ T) i = byte_at T (i - len H - len D).
Proof.
  intros Hi. unfold byte_at, len in *.
  rewrite app_nth2 by lia. rewrite app_nth2 by lia. f_equal. lia.
Qed.

Lemma sub_mid (H D T : list byte) (lo n : Z) :
  lo = len H -> n = len D -> sub (H ++ D ++ T) lo n = D.
Proof.
  intros -> ->. unfold sub, len. rewrite !Nat2Z.id.
  rewrite skipn_app, skipn_all, Nat.sub_diag. simpl.
  rewrite firstn_app, firstn_all, Nat.sub_diag. simpl. apply app_nil_r.
Qed.

Lemma len_layout (H D T : list byte) :
  len (H ++ D ++ T) = len H + len D + len T.
Proof. rewrite !len_app. lia. Qed.

Lemma decode_layout_standard (cla ins p1 p2 lc : byte) (data T : list byte) :
  Z_of_byte lc = len data -> 1 <= len data -> len T <= 1 ->
  ParseCapdu ([cla; ins; p1; p2; lc] ++ data ++ T)
  = Ok (mkCapdu cla ins p1 p2 data
          (match T with [] => 0 | le :: _ => ne_std (Z_of_byte le) end)).
Proof.
  intros Hlc Hd HT.
  set (H := [cla; ins; p1; p2; lc]). set (c := H ++ data ++ T).
  assert (LH : len H = 5) by reflexivity.
  assert (L : len c = 5 + len data + len T) by (unfold c; rewrite len_layout; lia).
  assert (B : forall i, 0 <= i < 5 -> byte_at c i = byte_at H i)
    by (intros; apply byte_at_pre; lia).
  assert (S : sub c 5 (len data) = data) by (apply sub_mid; lia).
  pose proof (len_nonneg T) as HT0.
  pose proof (Z_of_byte_range lc) as Rlc.
  rewrite ParseCapdu_closed_form. unfold ParseCapdu_cases, header_of. cbv zeta.
  rewrite !B by lia.
  change (byte_at H 0) with cla. change (byte_at H 1) with ins.
  change (byte_at H 2) with p1. change (byte_at H 3) with p2.
  change (byte_at H 4) with lc. rewrite Hlc, S, ?Z.gtb_ltb.
  destruct T as [|le T'].
  - rewrite len_nil in *. repeat (try zif; try reflexivity).
  - assert (T' = []) as ->.
    { apply len_zero_nil. rewrite len_cons in HT. pose proof (len_nonneg T'). lia. }
    assert (E : byte_at c (len c - 1) = le).
    { rewrite L, len_cons, len_nil. unfold c.
      rewrite byte_at_post by lia.
      replace (_ - _ - _) with 0 by lia. reflexivity. }
    rewrite E. rewrite len_cons, len_nil in L.
    repeat (try zif; try reflexivity).
Qed.

Lemma decode_layout_extended (cla ins p1 p2 hi lo : byte) (data T : list byte) :
  be16 hi lo = len data ->
  (T = [] /\ 1 <= len data) \/ len T = 2 ->
  ParseCapdu ([cla; ins; p1; p2; x00; hi; lo] ++ data ++ T)
  = Ok (mkCapdu cla ins p1 p2 data
          (match T with
           | nh :: nl :: _ => ne_ext (be16 nh nl)
           | _ => 0
           end)).
Proof.
  intros Hlc HT.
  set (H := [cla; ins; p1; p2; x00; hi; lo]). set (c := H ++ data ++ T).
  assert (LH : len H = 7) by reflexivity.
  assert (L : len c = 7 + len data + len T) by (unfold c; rewrite len_layout; lia).
  assert (B : forall i, 0 <= i < 7 -> byte_at c i = byte_at H i)
    by (intros; apply byte_at_pre; lia).
  assert (S : sub c 7 (len data) = data) by (apply sub_mid; lia).
  pose proof (len_nonneg data) as Hd0.
  pose proof (be16_range hi lo) as Rlc.
  rewrite ParseCapdu_closed_form. unfold ParseCapdu_cases, header_of. cbv zeta.
  rewrite !B by lia.
  change (byte_at H 0) with cla. change (byte_at H 1) with ins.
  change (byte_at H 2) with p1. change (byte_at H 3) with p2.
  change (byte_at H 4) with x00. change (byte_at H 5) with hi.
  change (byte_at H 6) with lo. change (Z_of_byte x00) with 0.
  rewrite Hlc, S, ?Z.gtb_ltb.
  destruct HT as [[-> Hd]|HT].
  - rewrite len_nil in *. repeat (try zif; try reflexivity).
  - destruct T as [|nh [|nl T']]; try (cbn in HT; lia).
    assert (T' = []) as ->.
    { apply len_zero_nil. rewrite !len_cons in HT. lia. }
    assert (E1 : byte_at c (len c - 2) = nh).
    { rewrite L, !len_cons, len_nil. unfold c.
      rewrite byte_at_post by lia.
      replace (_ - _ - _) with 0 by lia. reflexivity. }
    assert (E2 : byte_at c (len c - 1) = nl).
    { rewrite L, !len_cons, len_nil. unfold c.
      rewrite byte_at_post by lia.
      replace (_ - _ - _) with 1 by lia. reflexivity. }
    rewrite E1, E2. rewrite !len_cons, len_nil in L.
    repeat (try zif; try reflexivity).
Qed.

Lemma decode_case1 (cla ins p1 p2 : byte) :
  ParseCapdu [cla; ins; p1; p2] = Ok (mkCapdu cla ins p1 p2 [] 0).
Proof. reflexivity. Qed.

Lemma decode_case2_standard (cla ins p1 p2 le : byte) :
  ParseCapdu [cla; ins; p1; p2; le]
  = Ok (mkCapdu cla ins p1 p2 [] (ne_std (Z_of_byte le))).
Proof.
  rewrite ParseCapdu_closed_form. unfold ParseCapdu_cases, ne_std. cbv zeta.
  change (len [cla; ins; p1; p2; le]) with 5. cbn [orb Z.ltb Z.gtb Z.eqb Z.compare Pos.compare Pos.compare_cont Pos.eqb].
  reflexivity.
Qed.

Lemma decode_case2_extended (cla ins p1 p2 nh nl : byte) :
  ParseCapdu [cla; ins; p1; p2; x00; nh; nl]
  = Ok (mkCapdu cla ins p1 p2 [] (ne_ext (be16 nh nl))).
Proof.
  rewrite ParseCapdu_closed_form. reflexivity.
Qed.

Lemma decode_hid (cla ins p1 p2 : byte) :
  ParseCapdu [cla; ins; p1; p2; x00; x00] = Ok (mkCapdu cla ins p1 p2 [] 256).
Proof. reflexivity. Qed.

Ltac open_capdu c :=
  destruct c as [cla ins p1 p2 data ne];
  cbn [CLA INS P1 P2 Data Ne] in *.

Ltac ser_cases :=
  unfold Bytes, BytesExtended; consts; cbv zeta;
  cbn [CLA INS P1 P2 Data Ne]; rewrite ?Z.gtb_ltb;
  repeat (try zif; try reflexivity).

Lemma BytesExtended_layout (c : Capdu) :
  len (Data c) <= 65535 -> Ne c <= 65536 ->
  BytesExtended c
  = Ok ([CLA c; INS c; P1 c; P2 c; x00]
          ++ (if len (Data c) =? 0 then [] else put16 (len (Data c)) ++ Data c)
          ++ (if (0 <? Ne c) || (len (Data c) =? 0) then put16 (Ne c) else [])).
Proof.
  intros Hd Hn. open_capdu c. pose proof (len_nonneg data).
  ser_cases.
  all: cbn [app]; rewrite <- ?app_assoc, ?app_nil_r; reflexivity.
Qed.

Lemma byte_of_Z_land (n : Z) : byte_of_Z (Z.land n 0xFF) = byte_of_Z n.
Proof.
  rewrite land_255. unfold byte_of_Z. rewrite Z.mod_mod by lia. reflexivity.
Qed.

Lemma Bytes_standard (c : Capdu) :
  len (Data c) <= 255 -> Ne c <= 256 ->
  (len (Data c) = 0 /\ Ne c = 0
   /\ Bytes c = Ok [CLA c; INS c; P1 c; P2 c])
  \/ (len (Data c) = 0 /\ 0 < Ne c
      /\ Bytes c = Ok [CLA c; INS c; P1 c; P2 c; byte_of_Z (Ne c)])
  \/ (0 < len (Data c) /\ Ne c = 0
      /\ Bytes c
         = Ok ([CLA c; INS c; P1 c; P2 c; byte_of_Z (len (Data c))] ++ Data c))
  \/ ((0 < len (Data c) \/ Ne c < 0) /\ Ne c <> 0
      /\ Bytes c
         = Ok ([CLA c; INS c; P1 c; P2 c; byte_of_Z (len (Data c))]
                 ++ Data c ++ [byte_of_Z (Ne c)])).
Proof.
  intros Hd Hn. open_capdu c. pose proof (len_nonneg data).
  unfold Bytes; consts; cbv zeta; cbn [CLA INS P1 P2 Data Ne].
  rewrite ?Z.gtb_ltb, byte_of_Z_land.
  repeat zif; rewrite <- ?app_assoc;
    first
      [ solve [left; repeat split; first [lia | reflexivity]]
      | solve [right; left; repeat split; first [lia | reflexivity]]
      | solve [right; right; left; repeat split; first [lia | reflexivity]]
      | solve [right; right; right; repeat split; first [lia | reflexivity]] ].
Qed.

Lemma Bytes_extended_regime (c : Capdu) :
  len (Data c) <= 65535 -> Ne c <= 65536 ->
  255 < len (Data c) \/ 256 < Ne c ->
  Bytes c = BytesExtended c.
Proof.
  intros Hd Hn Hx. unfold Bytes. consts. cbv zeta. rewrite ?Z.gtb_ltb.
  repeat (try zif; try reflexivity).
Qed.

Lemma be16_put16 (n : Z) : be16 (hi16 n) (lo16 n) = n mod 65536.
Proof. apply be16_encode. Qed.

Lemma ne_std_byte (n : Z) :
  0 < n <= 256 -> ne_std (Z_of_byte (byte_of_Z n)) = n.
Proof.
  intros H. rewrite Z_of_byte_of_Z. unfold ne_std.
  destruct (Z.eq_dec n 256) as [->|N]; [reflexivity|].
  rewrite Z.mod_small by lia. zif.
Qed.

Lemma ne_ext_put16 (n : Z) :
  0 < n <= 65536 -> ne_ext (be16 (hi16 n) (lo16 n)) = n.
Proof.
  intros H. rewrite be16_put16. unfold ne_ext.
  destruct (Z.eq_dec n 65536) as [->|N]; [reflexivity|].
  rewrite Z.mod_small by lia. zif.
Qed.

Lemma round_trip_extended (c : Capdu) :
  len (Data c) <= 65535 -> 0 <= Ne c <= 65536 ->
  Data c <> [] \/ Ne c <> 0 ->
  parse_after (BytesExtended c) ParseCapdu = Ok c.
Proof.
  intros Hd Hn Hne. rewrite BytesExtended_layout by lia.
  open_capdu c. unfold parse_after. cbn [bind].
  pose proof (len_nonneg data) as Hd0.
  assert (Hlc : be16 (hi16 (len data)) (lo16 (len data)) = len data)
    by (rewrite be16_put16; apply Z.mod_small; lia).
  destruct (Z.eqb_spec (len data) 0) as [E|E].
  - apply len_zero_nil in E. subst data.
    destruct Hne as [Hne|Hne]; [congruence|].
    destruct (Z.ltb_spec 0 ne); [|lia]. cbn [orb].
    etransitivity; [exact (decode_case2_extended cla ins p1 p2 _ _)|].
    rewrite ne_ext_put16 by lia. reflexivity.
  - rewrite orb_false_r. destruct (Z.ltb_spec 0 ne).
    + etransitivity;
        [exact (decode_layout_extended cla ins p1 p2 _ _ data (put16 ne) Hlc
                  (or_intror eq_refl))|].
      cbn [put16]. rewrite ne_ext_put16 by lia. reflexivity.
    + assert (ne = 0) as -> by lia.
      assert (H1 : 1 <= len data) by lia.
      etransitivity;
        [exact (decode_layout_extended cla ins p1 p2 _ _ data [] Hlc
                  (or_introl (conj eq_refl H1)))|].
      reflexivity.
Qed.

Lemma round_trip_minimal (c : Capdu) :
  len (Data c) <= 65535 -> 0 <= Ne c <= 65536 ->
  parse_after (Bytes c) ParseCapdu = Ok c.
Proof.
  intros Hd Hn.
  destruct (Z.ltb_spec 255 (len (Data c))) as [Hx|Hs];
    [|destruct (Z.ltb_spec 256 (Ne c)) as [Hx|Hs']].
  - rewrite Bytes_extended_regime by lia. apply round_trip_extended; try lia.
    left. intros E. rewrite E in Hx. rewrite len_nil in Hx. lia.
  - rewrite Bytes_extended_regime by lia. apply round_trip_extended; try lia.
  - destruct (Bytes_standard c Hs Hs') as
      [(D & N & ->)|[(D & N & ->)|[(D & N & ->)|(D & N & ->)]]];
      open_capdu c; unfold parse_after; cbn [bind].
    + apply len_zero_nil in D. subst. apply decode_case1.
    + apply len_zero_nil in D. subst. rewrite decode_case2_standard.
      rewrite ne_std_byte by lia. reflexivity.
    + subst ne. rewrite <- (app_nil_r data) at 2.
      rewrite decode_layout_standard; [reflexivity| |lia|rewrite len_nil; lia].
      apply Z_of_byte_small. lia.
    + rewrite decode_layout_standard;
        [|apply Z_of_byte_small; lia|lia|rewrite len_cons, len_nil; lia].
      rewrite ne_std_byte by lia. reflexivity.
Qed.

Lemma round_trip_all_empty (c : Capdu) :
  Data c = [] -> Ne c = 0 ->
  parse_after (BytesExtended c) ParseCapdu
  = Ok (mkCapdu (CLA c) (INS c) (P1 c) (P2 c) [] 65536).
Proof.
  intros D N. open_capdu c. subst. reflexivity.
Qed.

Lemma round_trip_response (r : Rapdu) :
  len (RData r) <= 65536 ->
  parse_after (RapduBytes r) ParseRapdu = Ok r.
Proof.
  intros Hd. destruct r as [data sw1 sw2]. cbn [RData] in Hd.
  unfold RapduBytes. consts. cbn [RData SW1 SW2]. rewrite Z.gtb_ltb.
  destruct (Z.ltb_spec 65536 (len data)); [lia|].
  unfold parse_after. cbn [bind].
  rewrite ParseRapdu_closed_form. unfold ParseRapdu_cases. cbv zeta.
  pose proof (len_nonneg data) as Hd0.
  assert (L : len (data ++ [sw1; sw2]) = len data + 2)
    by (rewrite len_app, !len_cons, len_nil; lia).
  rewrite L, Z.gtb_ltb.
  destruct (Z.ltb_spec (len data + 2) 2); [lia|].
  destruct (Z.ltb_spec 65538 (len data + 2)); [lia|]. cbn [orb].
  change (data ++ [sw1; sw2]) with ([] ++ data ++ [sw1; sw2]).
  rewrite sub_mid by (unfold len; cbn [length]; lia).
  rewrite !byte_at_post by (unfold len; cbn [length]; lia).
  change (len (@nil byte)) with 0.
  replace (len data + 2 - 2 - 0 - len data) with 0 by lia.
  replace (len data + 2 - 1 - 0 - len data) with 1 by lia.
  reflexivity.
Qed.

Lemma ne_std_bounds (le : byte) : 1 <= ne_std (Z_of_byte le) <= 256.
Proof. pose proof (Z_of_byte_range le). unfold ne_std. zif. Qed.

Lemma ne_ext_bounds (hi lo : byte) : 1 <= ne_ext (be16 hi lo) <= 65536.
Proof. pose proof (be16_range hi lo). unfold ne_ext. zif. Qed.

Lemma byte_of_Z_not_x00 (n : Z) : 0 < n < 256 -> byte_of_Z n <> x00.
Proof.
  intros H E. assert (Z_of_byte (byte_of_Z n) = 0) by (rewrite E; reflexivity).
  rewrite Z_of_byte_small in *; lia.
Qed.

Ltac len_norm :=
  repeat first [rewrite len_app | rewrite len_cons | rewrite len_nil].

Lemma BytesExtended_shape (c : Capdu) (e : list byte) :
  BytesExtended c = Ok e -> 7 <= len e /\ byte_at e 4 = x00.
Proof.
  open_capdu c. pose proof (len_nonneg data) as Hd0.
  unfold BytesExtended. consts. cbv zeta. cbn [CLA INS P1 P2 Data Ne].
  rewrite ?Z.gtb_ltb.
  repeat (try zif; try discriminate); intros Heq; injection Heq as <-;
    (split; [len_norm; lia | reflexivity]).
Qed.

(** C4, as the code has it.  With at most 255 data bytes and [Ne] within
    0..256, [Bytes] returns one of the four standard encodings (header;
    header and Le; header, Lc and data; header, Lc, data and Le) and never an
    encoding with the 0x00 sentinel after the header: what it returns has at
    most 5 bytes (header, or header and Le) or a non-zero Lc byte at index 4.
    It is never what [BytesExtended] returns, and [IsExtendedLength] is false
    for such a command. *)
Theorem bytes_minimal (c : Capdu) :
  len (Data c) <= 255 -> 0 <= Ne c <= 256 ->
  exists out,
    Bytes c = Ok out
    /\ ((len (Data c) = 0 /\ Ne c = 0 /\ out = [CLA c; INS c; P1 c; P2 c])
        \/ (len (Data c) = 0 /\ 0 < Ne c
            /\ out = [CLA c; INS c; P1 c; P2 c; byte_of_Z (Ne c)])
        \/ (0 < len (Data c) /\ Ne c = 0
            /\ out = [CLA c; INS c; P1 c; P2 c; byte_of_Z (len (Data c))]
                       ++ Data c)
        \/ (0 < len (Data c) /\ 0 < Ne c
            /\ out = [CLA c; INS c; P1 c; P2 c; byte_of_Z (len (Data c))]
                       ++ Data c ++ [byte_of_Z (Ne c)]))
    /\ (len out <= 5 \/ byte_at out 4 <> x00)
    /\ IsExtendedLength c = false
    /\ Bytes c <> BytesExtended c.
Proof.
  intros Hd Hn.
  assert (Hlc : 0 < len (Data c) ->
                byte_of_Z (len (Data c)) <> x00)
    by (intros; apply byte_of_Z_not_x00; lia).
  assert (K : exists out, Bytes c = Ok out
     /\ ((len (Data c) = 0 /\ Ne c = 0 /\ out = [CLA c; INS c; P1 c; P2 c])
        \/ (len (Data c) = 0 /\ 0 < Ne c
            /\ out = [CLA c; INS c; P1 c; P2 c; byte_of_Z (Ne c)])
        \/ (0 < len (Data c) /\ Ne c = 0
            /\ out = [CLA c; INS c; P1 c; P2 c; byte_of_Z (len (Data c))]
                       ++ Data c)
        \/ (0 < len (Data c) /\ 0 < Ne c
            /\ out = [CLA c; INS c; P1 c; P2 c; byte_of_Z (len (Data c))]
                       ++ Data c ++ [byte_of_Z (Ne c)]))).
  { destruct (Bytes_standard c Hd (proj2 Hn)) as
      [(D & N & E)|[(D & N & E)|[(D & N & E)|(D & N & E)]]];
      eexists; (split; [exact E|]).
    - left. tauto.
    - right; left. tauto.
    - right; right; left. tauto.
    - right; right; right. repeat split; lia. }
  destruct K as (out & E & Forms).
  assert (Small : len out <= 5 \/ byte_at out 4 <> x00).
  { destruct Forms as [(D & N & ->)|[(D & N & ->)|[(D & N & ->)|(D & N & ->)]]].
    - left. len_norm. lia.
    - left. len_norm. lia.
    - right. exact (Hlc D).
    - right. exact (Hlc D). }
  exists out.
  split; [exact E|]. split; [exact Forms|]. split; [exact Small|]. split.
  - unfold IsExtendedLength. consts. rewrite !Z.gtb_ltb.
    destruct (Z.ltb_spec 256 (Ne c)); [lia|].
    destruct (Z.ltb_spec 255 (len (Data c))); [lia|]. reflexivity.
  - intros Heq. rewrite E in Heq. symmetry in Heq.
    apply BytesExtended_shape in Heq.
    pose proof (len_nonneg out). destruct Small; [lia|tauto].
Qed.

Lemma bytes_minimal_witness :
  Bytes (mkCapdu x00 xa4 x04 x01 [x01; x02] 3)
  <> BytesExtended (mkCapdu x00 xa4 x04 x01 [x01; x02] 3).
Proof.
  destruct (bytes_minimal (mkCapdu x00 xa4 x04 x01 [x01; x02] 3))
    as (out & _ & _ & _ & _ & H).
  - vm_compute. discriminate.
  - cbn [Ne]. lia.
  - exact H.
Defined.

(** C4 as stated fails for a negative [Ne], which [Ne <= 256] admits: with
    no data and [Ne = -1] no case of the switch applies, the case 4 code
    runs and [Bytes] returns header 00 FF, six bytes with 0x00 after the
    header, which [ParseCapdu] reads as a sentinel and rejects. *)
Lemma bytes_minimal_counterexample :
  len (Data (mkCapdu x00 xa4 x04 x00 [] (-1))) <= 255
  /\ Ne (mkCapdu x00 xa4 x04 x00 [] (-1)) <= 256
  /\ Bytes (mkCapdu x00 xa4 x04 x00 [] (-1))
     = Ok [x00; xa4; x04; x00; x00; xff]
  /\ ~ (len [x00; xa4; x04; x00; x00; xff] <= 5
        \/ byte_at [x00; xa4; x04; x00; x00; xff] 4 <> x00)
  /\ ParseCapdu [x00; xa4; x04; x00; x00; xff] = Err (ErrHidLe 255).
Proof.
  split; [vm_compute; discriminate|].
  split; [vm_compute; discriminate|].
  split; [vm_compute; reflexivity|].
  split; [|vm_compute; reflexivity].
  intros [L|B].
  - vm_compute in L. apply L. reflexivity.
  - apply B. reflexivity.
Qed.




Lemma Part000_BytesExtended_layout (c : Capdu) :
  len (Data c) <= 65535 -> Ne c <= 65536 ->
  Part000.BytesExtended c
  = Ok ([CLA c; INS c; P1 c; P2 c] ++ (x00 :: put16 (len (Data c)))
          ++ Data c ++ put16 (Ne c)).
Proof.
  intros Hd Hn. open_capdu c.
  unfold Part000.BytesExtended. consts. cbv zeta.
  cbn [CLA INS P1 P2 Data Ne]. rewrite ?Z.gtb_ltb.
  repeat (try zif); rewrite <- !app_assoc; try reflexivity.
  subst ne. reflexivity.
Qed.

(** C3, as the code has it.  [BytesExtended] writes the header and the 0x00
    sentinel, then the two-byte big-endian data length and the data only when
    the data is not empty, then a two-byte Le when [Ne > 0] or the data is
    empty; the all-empty command gives header 00 00 00, which parses back
    with Ne = 65536. *)
Theorem bytes_extended_fields (c : Capdu) :
  len (Data c) <= 65535 -> Ne c <= 65536 ->
  BytesExtended c
  = Ok ([CLA c; INS c; P1 c; P2 c; x00]
          ++ (if len (Data c) =? 0 then [] else put16 (len (Data c)) ++ Data c)
          ++ (if (0 <? Ne c) || (len (Data c) =? 0) then put16 (Ne c) else []))
  /\ be16 (hi16 (len (Data c))) (lo16 (len (Data c))) = len (Data c)
  /\ (len (Data c) = 0 -> Ne c = 0 ->
      BytesExtended c = Ok [CLA c; INS c; P1 c; P2 c; x00; x00; x00]
      /\ parse_after (BytesExtended c) ParseCapdu
         = Ok (mkCapdu (CLA c) (INS c) (P1 c) (P2 c) [] 65536)).
Proof.
  intros Hd Hn. pose proof (len_nonneg (Data c)) as Hd0.
  split; [apply BytesExtended_layout; assumption|split].
  - rewrite be16_put16. apply Z.mod_small. lia.
  - intros D N. apply len_zero_nil in D.
    split; [|apply round_trip_all_empty; assumption].
    open_capdu c. subst. reflexivity.
Qed.

Lemma bytes_extended_fields_witness :
  BytesExtended (mkCapdu x00 xa4 x04 x01 [x01; x02; x03] 257)
  = Ok (hx [0x00; 0xA4; 0x04; 0x01; 0x00; 0x00; 0x03; 0x01; 0x02; 0x03;
            0x01; 0x01]).
Proof.
  refine (proj1 (bytes_extended_fields
                   (mkCapdu x00 xa4 x04 x01 [x01; x02; x03] 257) _ _)).
  - vm_compute. discriminate.
  - vm_compute. discriminate.
Defined.

(** C3 as stated fails: with no data and Ne = 5 the three bytes after the
    header are 00 00 05, not a sentinel followed by the data length 00 00;
    and with one data byte and Ne = 0 no Le is written. *)
Lemma bytes_extended_lc_field_counterexample :
  BytesExtended (mkCapdu x00 xa4 x04 x00 [] 5)
  = Ok [x00; xa4; x04; x00; x00; x00; x05]
  /\ ~ (exists rest,
          BytesExtended (mkCapdu x00 xa4 x04 x00 [] 5)
          = Ok ([x00; xa4; x04; x00] ++ [x00; hi16 0; lo16 0] ++ rest))
  /\ BytesExtended (mkCapdu x00 xa4 x04 x00 [x01] 0)
     = Ok [x00; xa4; x04; x00; x00; x00; x01; x01].
Proof.
  split; [reflexivity|split; [|reflexivity]].
  intros [rest H]. vm_compute in H. discriminate H.
Qed.

(** C1, as the code has it.  Parsing what [Bytes] returns gives back every
    valid command; parsing what [BytesExtended] returns gives back every valid
    command that has data or a non-zero [Ne]; parsing what [Rapdu.Bytes]
    returns gives back every valid response. *)
Theorem round_trip :
  (forall c, len (Data c) <= 65535 -> 0 <= Ne c <= 65536 ->
     parse_after (Bytes c) ParseCapdu = Ok c)
  /\ (forall c, len (Data c) <= 65535 -> 0 <= Ne c <= 65536 ->
        Data c <> [] \/ Ne c <> 0 ->
        parse_after (BytesExtended c) ParseCapdu = Ok c)
  /\ (forall r, len (RData r) <= 65536 ->
        parse_after (RapduBytes r) ParseRapdu = Ok r).
Proof.
  split; [|split].
  - apply round_trip_minimal.
  - apply round_trip_extended.
  - apply round_trip_response.
Qed.

Lemma round_trip_witness :
  parse_after (Bytes (mkCapdu x00 xa4 x04 x00 [x01; x02; x03] 65536)) ParseCapdu
  = Ok (mkCapdu x00 xa4 x04 x00 [x01; x02; x03] 65536)
  /\ parse_after (BytesExtended (mkCapdu x00 xa4 x04 x01 [x01; x02] 3)) ParseCapdu
     = Ok (mkCapdu x00 xa4 x04 x01 [x01; x02] 3)
  /\ parse_after (RapduBytes (mkRapdu [x01; x02; x03] x90 x00)) ParseRapdu
     = Ok (mkRapdu [x01; x02; x03] x90 x00).
Proof.
  split; [|split].
  - apply (proj1 round_trip); cbn [Data Ne]; unfold len; cbn [length]; lia.
  - apply (proj1 (proj2 round_trip)).
    + cbn [Data]. unfold len. cbn [length]. lia.
    + cbn [Ne]. lia.
    + right. cbn [Ne]. lia.
  - apply (proj2 (proj2 round_trip)). cbn [RData]. unfold len. cbn [length]. lia.
Defined.

(** C1 as stated fails for the forced-extended encoding of the all-empty
    command: it parses back with Ne = 65536. *)
Lemma round_trip_counterexample :
  len (Data select_empty) <= 65535
  /\ 0 <= Ne select_empty <= 65536
  /\ parse_after (BytesExtended select_empty) ParseCapdu
     = Ok (mkCapdu x00 xa4 x04 x00 [] 65536)
  /\ parse_after (BytesExtended select_empty) ParseCapdu <> Ok select_empty.
Proof.
  split; [vm_compute; discriminate|].
  split; [split; vm_compute; discriminate|].
  split; [reflexivity|].
  vm_compute. discriminate.
Qed.
(** ** Beyond the claims: the two revisions of the serializers *)

(** The two revisions of [Bytes] return the same bytes, or the same error,
    for every command whose [Ne] is not negative or whose data fit the
    standard regime. *)
Theorem bytes_revisions_agree (c : Capdu) :
  0 <= Ne c \/ len (Data c) <= 255 ->
  Part000.Bytes c = Bytes c.
Proof.
  intros H. open_capdu c. pose proof (len_nonneg data) as Hd0.
  unfold Part000.Bytes, Part000.BytesExtended, Bytes, BytesExtended.
  consts. cbv zeta. cbn [CLA INS P1 P2 Data Ne].
  rewrite ?Z.gtb_ltb, ?byte_of_Z_land.
  repeat (try zif; try reflexivity).
  all: subst; cbn [app]; rewrite <- ?app_assoc; try reflexivity.
Qed.

Lemma bytes_revisions_agree_witness :
  Part000.Bytes (mkCapdu x00 xa4 x04 x01 [] 65535)
  = Bytes (mkCapdu x00 xa4 x04 x01 [] 65535).
Proof.
  apply bytes_revisions_agree. left. cbn [Ne]. lia.
Defined.

(** On a valid command the earlier [BytesExtended] returns what the current
    one returns exactly when there are data and [Ne > 0]; what it returns
    parses back to the command, except that [Ne = 0] comes back as 65536. *)
Theorem bytes_extended_revisions (c : Capdu) :
  len (Data c) <= 65535 -> 0 <= Ne c <= 65536 ->
  (Part000.BytesExtended c = BytesExtended c <-> Data c <> [] /\ 0 < Ne c)
  /\ parse_after (Part000.BytesExtended c) ParseCapdu
     = Ok (mkCapdu (CLA c) (INS c) (P1 c) (P2 c) (Data c)
             (if Ne c =? 0 then 65536 else Ne c)).
Proof.
  intros Hd Hn. pose proof (len_nonneg (Data c)) as Hd0.
  rewrite Part000_BytesExtended_layout by lia.
  split.
  - rewrite BytesExtended_layout by lia. split.
    + intros Heq. injection Heq as Heq.
      apply (f_equal (@len byte)) in Heq. revert Heq.
      destruct (Z.eqb_spec (len (Data c)) 0) as [E|E];
        destruct (Z.ltb_spec 0 (Ne c)); cbn [orb]; unfold put16;
        len_norm; intros Heq; try lia.
      split; [|lia]. intros D. rewrite D in E. apply E. reflexivity.
    + intros [D N].
      destruct (Z.eqb_spec (len (Data c)) 0) as [E|E];
        [apply len_zero_nil in E; contradiction|].
      destruct (Z.ltb_spec 0 (Ne c)); [|lia]. reflexivity.
  - unfold parse_after. cbn [bind]. open_capdu c.
    assert (Hlc : be16 (hi16 (len data)) (lo16 (len data)) = len data)
      by (rewrite be16_put16; apply Z.mod_small; lia).
    etransitivity;
      [exact (decode_layout_extended cla ins p1 p2 _ _ data (put16 ne) Hlc
                (or_intror eq_refl))|].
    cbn [put16]. destruct (Z.eqb_spec ne 0) as [->|N]; [reflexivity|].
    rewrite ne_ext_put16 by lia. reflexivity.
Qed.

Lemma bytes_extended_revisions_witness :
  Part000.BytesExtended (mkCapdu x00 xa4 x04 x01 [x01; x02; x03] 0)
  <> BytesExtended (mkCapdu x00 xa4 x04 x01 [x01; x02; x03] 0)
  /\ parse_after (Part000.BytesExtended (mkCapdu x00 xa4 x04 x01 [x01; x02; x03] 0))
       ParseCapdu
     = Ok (mkCapdu x00 xa4 x04 x01 [x01; x02; x03] 65536).
Proof.
  destruct (bytes_extended_revisions (mkCapdu x00 xa4 x04 x01 [x01; x02; x03] 0))
    as [[H _] P].
  - vm_compute. discriminate.
  - cbn [Ne]. lia.
  - split; [|exact P]. intros E. apply H in E. cbn [Ne] in E. lia.
Defined.

(** ** Beyond the claims: parsing and serializing back *)

Lemma Bytes_len (c : Capdu) :
  len (Data c) <= 65535 -> 0 <= Ne c <= 65536 ->
  exists out, Bytes c = Ok out
              /\ len out = encoded_len (len (Data c)) (Ne c).
Proof.
  intros Hd Hn. open_capdu c. pose proof (len_nonneg data) as Hd0.
  unfold Bytes, BytesExtended, encoded_len. consts. cbv zeta.
  cbn [CLA INS P1 P2 Data Ne]. rewrite ?Z.gtb_ltb.
  repeat zif; (eexists; split; [reflexivity|]); len_norm; lia.
Qed.

(** What a successful parse returns, branch by branch. *)
Lemma ParseCapdu_result (b : list byte) (c : Capdu) :
  ParseCapdu b = Ok c ->
  CLA c = byte_at b 0 /\ INS c = byte_at b 1
  /\ P1 c = byte_at b 2 /\ P2 c = byte_at b 3
  /\ 4 <= len b <= 65544
  /\ ((len b = 4 /\ Data c = [] /\ Ne c = 0)
      \/ (len b = 5 /\ Data c = []
          /\ Ne c = ne_std (Z_of_byte (byte_at b 4)))
      \/ (len b = 7 /\ byte_at b 4 = x00 /\ Data c = []
          /\ Ne c = ne_ext (be16 (byte_at b 5) (byte_at b 6)))
      \/ (len b = 6 /\ byte_at b 4 = x00 /\ byte_at b 5 = x00
          /\ Data c = [] /\ Ne c = 256)
      \/ (8 <= len b /\ byte_at b 4 = x00
          /\ be16 (byte_at b 5) (byte_at b 6) = len b - 7
          /\ Data c = sub b 7 (len b - 7) /\ Ne c = 0)
      \/ (9 <= len b /\ byte_at b 4 = x00
          /\ be16 (byte_at b 5) (byte_at b 6) = len b - 9
          /\ Data c = sub b 7 (len b - 9)
          /\ Ne c = ne_ext (be16 (byte_at b (len b - 2))
                                (byte_at b (len b - 1))))
      \/ (6 <= len b /\ byte_at b 4 <> x00
          /\ Z_of_byte (byte_at b 4) = len b - 5
          /\ Data c = sub b 5 (len b - 5) /\ Ne c = 0)
      \/ (7 <= len b /\ byte_at b 4 <> x00
          /\ Z_of_byte (byte_at b 4) = len b - 6
          /\ Data c = sub b 5 (len b - 6)
          /\ Ne c = ne_std (Z_of_byte (byte_at b (len b - 1))))).
Proof.
  rewrite ParseCapdu_closed_form. unfold ParseCapdu_cases. cbv zeta.
  rewrite ?Z.gtb_ltb, !byte_at_not_x00, !byte_at_x00.
  pose proof (be16_range (byte_at b 5) (byte_at b 6)).
  pose proof (Z_of_byte_range (byte_at b 4)).
  repeat (try zif; try discriminate);
    intros Heq; injection Heq as <-; cbn [CLA INS P1 P2 Ne Data header_of];
    (do 4 (split; [reflexivity|])); (split; [lia|]).
  all: let fin := (repeat split; first [lia | reflexivity | f_equal; lia]) in
       first
         [ solve [left; fin]
         | solve [right; left; fin]
         | solve [do 2 right; left; fin]
         | solve [do 3 right; left; fin]
         | solve [do 4 right; left; fin]
         | solve [do 5 right; left; fin]
         | solve [do 6 right; left; fin]
         | solve [do 7 right; fin] ].
Qed.

Lemma ParseCapdu_shortest (b : list byte) (c : Capdu) :
  ParseCapdu b = Ok c ->
  len (Data c) <= 65535 /\ 0 <= Ne c <= 65536
  /\ encoded_len (len (Data c)) (Ne c) <= len b.
Proof.
  intros P. apply ParseCapdu_result in P.
  destruct P as (_ & _ & _ & _ & L & Cases).
  pose proof (ne_std_bounds (byte_at b 4)).
  pose proof (ne_std_bounds (byte_at b (len b - 1))).
  pose proof (ne_ext_bounds (byte_at b 5) (byte_at b 6)).
  pose proof (ne_ext_bounds (byte_at b (len b - 2)) (byte_at b (len b - 1))).
  pose proof (be16_range (byte_at b 5) (byte_at b 6)).
  pose proof (Z_of_byte_range (byte_at b 4)).
  unfold encoded_len.
  destruct Cases as
    [(Lb & D & N)|[(Lb & D & N)|[(Lb & B4 & D & N)|[(Lb & B4 & B5 & D & N)
    |[(Lb & B4 & Lc & D & N)|[(Lb & B4 & Lc & D & N)
    |[(Lb & B4 & Lc & D & N)|(Lb & B4 & Lc & D & N)]]]]]]];
    rewrite D, N, ?len_nil, ?len_sub by lia;
    (split; [lia|]); (split; [lia|]);
    repeat zif.
Qed.


Lemma byte_at_ext (l1 l2 : list byte) :
  len l1 = len l2 ->
  (forall i, 0 <= i < len l1 -> byte_at l1 i = byte_at l2 i) ->
  l1 = l2.
Proof.
  intros L E. apply (nth_ext l1 l2 x00 x00).
  - unfold len in L. lia.
  - intros n Hn. specialize (E (Z.of_nat n)).
    unfold byte_at in E. rewrite Nat2Z.id in E. apply E. unfold len. lia.
Qed.

Lemma byte_at_mid (H D T : list byte) (i : Z) :
  len H <= i < len H + len D ->
  byte_at (H ++ D ++ T) i = byte_at D (i - len H).
Proof.
  intros Hi. pose proof (len_nonneg H). unfold byte_at, len in *.
  rewrite app_nth2 by lia. rewrite app_nth1 by lia. f_equal. lia.
Qed.

Lemma layout_rebuild (b H D T : list byte) :
  len b = len H + len D + len T ->
  (forall i, 0 <= i < len H -> byte_at H i = byte_at b i) ->
  D = sub b (len H) (len D) ->
  (forall i, 0 <= i < len T -> byte_at T i = byte_at b (len H + len D + i)) ->
  H ++ D ++ T = b.
Proof.
  intros L EH ED ET.
  pose proof (len_nonneg H). pose proof (len_nonneg D). pose proof (len_nonneg T).
  apply byte_at_ext; [rewrite len_layout; lia|].
  rewrite len_layout. intros i Hi.
  destruct (Z.ltb_spec i (len H)); [|destruct (Z.ltb_spec i (len H + len D))].
  - rewrite byte_at_pre by lia. apply EH. lia.
  - rewrite byte_at_mid by lia. rewrite ED at 1.
    rewrite byte_at_sub by lia. f_equal. lia.
  - rewrite byte_at_post by lia. rewrite ET by lia. f_equal. lia.
Qed.

Lemma byte_of_ne_std (x : byte) : byte_of_Z (ne_std (Z_of_byte x)) = x.
Proof.
  unfold ne_std. destruct (Z.eqb_spec (Z_of_byte x) 0) as [E|E].
  - apply Z_of_byte_inj. rewrite E. reflexivity.
  - apply byte_of_Z_of_byte.
Qed.

Lemma hi16_be16 (hi lo : byte) : hi16 (be16 hi lo) = hi.
Proof.
  apply Z_of_byte_inj. unfold hi16.
  rewrite Z_of_byte_of_Z, land_255, Z.mod_mod by lia.
  rewrite be16_value, Z.shiftr_div_pow2 by lia. change (2 ^ 8) with 256.
  pose proof (Z_of_byte_range hi). pose proof (Z_of_byte_range lo).
  replace (256 * Z_of_byte hi + Z_of_byte lo)
    with (Z_of_byte lo + Z_of_byte hi * 256) by lia.
  rewrite Z.div_add by lia. rewrite Z.div_small by lia.
  apply Z.mod_small. lia.
Qed.

Lemma lo16_be16 (hi lo : byte) : lo16 (be16 hi lo) = lo.
Proof.
  apply Z_of_byte_inj. unfold lo16.
  rewrite Z_of_byte_of_Z, land_255, Z.mod_mod by lia.
  rewrite be16_value.
  pose proof (Z_of_byte_range hi). pose proof (Z_of_byte_range lo).
  replace (256 * Z_of_byte hi + Z_of_byte lo)
    with (Z_of_byte lo + Z_of_byte hi * 256) by lia.
  rewrite Z.mod_add by lia. apply Z.mod_small. lia.
Qed.

Lemma put16_ne_ext (hi lo : byte) : put16 (ne_ext (be16 hi lo)) = [hi; lo].
Proof.
  unfold ne_ext. destruct (Z.eqb_spec (be16 hi lo) 0) as [E|E].
  - pose proof (hi16_be16 hi lo) as A. pose proof (lo16_be16 hi lo) as B.
    rewrite E in A, B. rewrite <- A, <- B. reflexivity.
  - unfold put16. rewrite hi16_be16, lo16_be16. reflexivity.
Qed.

Lemma byte_at_small (H : list byte) (b : list byte) (n : nat) :
  (forall k, (k < n)%nat -> nth k H x00 = nth k b x00) ->
  forall i, 0 <= i < Z.of_nat n -> byte_at H i = byte_at b i.
Proof.
  intros E i Hi. unfold byte_at. apply E. lia.
Qed.

Ltac small_index :=
  let i := fresh "i" in
  let Hi := fresh "Hi" in
  intros i Hi; unfold len in Hi; cbn [length] in Hi;
  assert (i = 0 \/ i = 1 \/ i = 2 \/ i = 3 \/ i = 4 \/ i = 5 \/ i = 6) as Hcases
    by lia;
  repeat (destruct Hcases as [-> | Hcases]; [first [reflexivity | assumption | congruence]|]);
  first [subst; reflexivity | lia | congruence].

Lemma rebuild_header (b T : list byte) :
  len b = 4 + len T ->
  (forall i, 0 <= i < len T -> byte_at T i = byte_at b (4 + i)) ->
  [byte_at b 0; byte_at b 1; byte_at b 2; byte_at b 3] ++ T = b.
Proof.
  intros L ET.
  change ([byte_at b 0; byte_at b 1; byte_at b 2; byte_at b 3] ++ T)
    with ([byte_at b 0; byte_at b 1; byte_at b 2; byte_at b 3] ++ [] ++ T).
  apply layout_rebuild.
  - rewrite L. reflexivity.
  - small_index.
  - reflexivity.
  - intros i Hi. rewrite ET by lia. reflexivity.
Qed.

Lemma rebuild_standard (b data T : list byte) :
  len b = 5 + len data + len T ->
  data = sub b 5 (len data) ->
  (forall i, 0 <= i < len T -> byte_at T i = byte_at b (5 + len data + i)) ->
  [byte_at b 0; byte_at b 1; byte_at b 2; byte_at b 3; byte_at b 4]
    ++ data ++ T = b.
Proof.
  intros L ED ET. apply layout_rebuild.
  - rewrite L. reflexivity.
  - small_index.
  - exact ED.
  - exact ET.
Qed.

Lemma rebuild_extended (b data T : list byte) :
  len b = 7 + len data + len T ->
  data = sub b 7 (len data) ->
  (forall i, 0 <= i < len T -> byte_at T i = byte_at b (7 + len data + i)) ->
  [byte_at b 0; byte_at b 1; byte_at b 2; byte_at b 3; byte_at b 4;
   byte_at b 5; byte_at b 6] ++ data ++ T = b.
Proof.
  intros L ED ET. apply layout_rebuild.
  - rewrite L. reflexivity.
  - small_index.
  - exact ED.
  - exact ET.
Qed.

(** Serializing what was parsed from a standard-regime input (at most 5
    bytes, or a non-zero byte after the header) returns the input bytes. *)
Theorem reencode_standard (b : list byte) (c : Capdu) :
  ParseCapdu b = Ok c ->
  len b <= 5 \/ byte_at b 4 <> x00 ->
  Bytes c = Ok b.
Proof.
  intros P Hshape.
  destruct (ParseCapdu_result b c P) as (C0 & C1 & C2 & C3 & L & Cases).
  pose proof (Z_of_byte_range (byte_at b 4)) as R4.
  pose proof (ne_std_bounds (byte_at b 4)) as N4.
  pose proof (ne_std_bounds (byte_at b (len b - 1))) as Nl.
  destruct c as [cla ins p1 p2 data ne]. cbn [CLA INS P1 P2 Data Ne] in *.
  subst cla ins p1 p2.
  destruct Cases as
    [(Lb & D & N)|[(Lb & D & N)|[(Lb & B4 & D & N)|[(Lb & B4 & B5 & D & N)
    |[(Lb & B4 & Lc & D & N)|[(Lb & B4 & Lc & D & N)
    |[(Lb & B4 & Lc & D & N)|(Lb & B4 & Lc & D & N)]]]]]]];
    try (exfalso; destruct Hshape; [lia|contradiction]).
  - subst. transitivity (Ok ([byte_at b 0; byte_at b 1; byte_at b 2; byte_at b 3] ++ []));
      [reflexivity|].
    f_equal. apply rebuild_header; [unfold len in *; cbn [length]; lia|].
    intros i Hi. unfold len in Hi. cbn [length] in Hi. lia.
  - subst data.
    destruct (Bytes_standard (mkCapdu (byte_at b 0) (byte_at b 1) (byte_at b 2)
                                (byte_at b 3) [] ne))
      as [(D' & N' & E)|[(D' & N' & E)|[(D' & N' & E)|(D' & N' & E)]]];
      cbn [CLA INS P1 P2 Data Ne] in *; change (len (@nil byte)) with 0 in *; try lia.
    rewrite E, N, byte_of_ne_std. f_equal.
    apply (rebuild_header b [byte_at b 4]); [unfold len in *; cbn [length]; lia|].
    intros i Hi. unfold len in Hi. cbn [length] in Hi.
    assert (i = 0) as -> by lia. reflexivity.
  - assert (Ld : len data = len b - 5) by (rewrite D; apply len_sub; lia).
    destruct (Bytes_standard (mkCapdu (byte_at b 0) (byte_at b 1) (byte_at b 2)
                                (byte_at b 3) data ne))
      as [(D' & N' & E)|[(D' & N' & E)|[(D' & N' & E)|(D' & N' & E)]]];
      cbn [CLA INS P1 P2 Data Ne] in *; try lia.
    rewrite E. f_equal.
    rewrite Ld, <- Lc, byte_of_Z_of_byte. rewrite <- (app_nil_r data).
    apply rebuild_standard.
    + unfold len in *. cbn [length]. lia.
    + rewrite Ld. exact D.
    + intros i Hi. unfold len in Hi. cbn [length] in Hi. lia.
  - assert (Ld : len data = len b - 6) by (rewrite D; apply len_sub; lia).
    destruct (Bytes_standard (mkCapdu (byte_at b 0) (byte_at b 1) (byte_at b 2)
                                (byte_at b 3) data ne))
      as [(D' & N' & E)|[(D' & N' & E)|[(D' & N' & E)|(D' & N' & E)]]];
      cbn [CLA INS P1 P2 Data Ne] in *; try lia.
    rewrite E. f_equal.
    rewrite Ld, <- Lc, byte_of_Z_of_byte, N, byte_of_ne_std.
    apply rebuild_standard.
    + unfold len in *. cbn [length]. lia.
    + rewrite Ld. exact D.
    + intros i Hi. unfold len in Hi. cbn [length] in Hi.
      assert (i = 0) as -> by lia.
      replace (5 + len data + 0) with (len b - 1) by lia. reflexivity.
Qed.

Lemma reencode_standard_witness :
  Bytes (mkCapdu x00 xa4 x04 x00 [x01; x02; x03; x04; x05] 32)
  = Ok (hx [0x00; 0xA4; 0x04; 0x00; 0x05; 0x01; 0x02; 0x03; 0x04; 0x05; 0x20]).
Proof.
  apply reencode_standard.
  - vm_compute. reflexivity.
  - right. vm_compute. discriminate.
Defined.

(** [BytesExtended] of what was parsed from an extended-regime input (at
    least 7 bytes, zero after the header) returns the input bytes, unless the
    input is the 9-byte form with an empty data field. *)
Theorem reencode_extended (b : list byte) (c : Capdu) :
  ParseCapdu b = Ok c ->
  7 <= len b -> byte_at b 4 = x00 ->
  (len b = 9 -> Data c <> []) ->
  BytesExtended c = Ok b.
Proof.
  intros P L7 B4 H9.
  destruct (ParseCapdu_result b c P) as (C0 & C1 & C2 & C3 & L & Cases).
  pose proof (be16_range (byte_at b 5) (byte_at b 6)) as R.
  pose proof (ne_ext_bounds (byte_at b 5) (byte_at b 6)) as N5.
  pose proof (ne_ext_bounds (byte_at b (len b - 2)) (byte_at b (len b - 1))) as Nl.
  destruct c as [cla ins p1 p2 data ne]. cbn [CLA INS P1 P2 Data Ne] in *.
  subst cla ins p1 p2.
  destruct Cases as
    [(Lb & D & N)|[(Lb & D & N)|[(Lb & _ & D & N)|[(Lb & _ & B5 & D & N)
    |[(Lb & _ & Lc & D & N)|[(Lb & _ & Lc & D & N)
    |[(Lb & B4' & Lc & D & N)|(Lb & B4' & Lc & D & N)]]]]]]];
    try lia; try contradiction.
  - subst data. rewrite BytesExtended_layout
      by (cbn [Data Ne]; change (len (@nil byte)) with 0; lia).
    cbn [CLA INS P1 P2 Data Ne]. change (len (@nil byte)) with 0.
    change (0 =? 0) with true. rewrite orb_true_r.
    rewrite N, put16_ne_ext, <- B4. f_equal.
    apply (rebuild_standard b [] [byte_at b 5; byte_at b 6]).
    + unfold len in *. cbn [length]. lia.
    + reflexivity.
    + small_index.
  - assert (Ld : len data = len b - 7) by (rewrite D; apply len_sub; lia).
    rewrite BytesExtended_layout by (cbn [Data Ne]; lia).
    cbn [CLA INS P1 P2 Data Ne].
    destruct (Z.eqb_spec (len data) 0); [lia|]. subst ne.
    change ((0 <? 0) || false) with false.
    rewrite Ld, <- Lc. unfold put16. rewrite hi16_be16, lo16_be16, <- B4.
    transitivity
      (Ok ([byte_at b 0; byte_at b 1; byte_at b 2; byte_at b 3; byte_at b 4;
            byte_at b 5; byte_at b 6] ++ data ++ []));
      [reflexivity|].
    f_equal. apply rebuild_extended.
    + unfold len in *. cbn [length]. lia.
    + rewrite Ld. exact D.
    + intros i Hi. unfold len in Hi. cbn [length] in Hi. lia.
  - assert (Ld : len data = len b - 9) by (rewrite D; apply len_sub; lia).
    assert (Hd : len data <> 0).
    { intros Z0. apply H9; [lia|]. apply len_zero_nil. exact Z0. }
    rewrite BytesExtended_layout by (cbn [Data Ne]; lia).
    cbn [CLA INS P1 P2 Data Ne].
    destruct (Z.eqb_spec (len data) 0); [lia|].
    destruct (Z.ltb_spec 0 ne); [|lia]. cbn [orb].
    rewrite Ld, <- Lc, N, put16_ne_ext. unfold put16.
    rewrite hi16_be16, lo16_be16, <- B4.
    transitivity
      (Ok ([byte_at b 0; byte_at b 1; byte_at b 2; byte_at b 3; byte_at b 4;
            byte_at b 5; byte_at b 6] ++ data
             ++ [byte_at b (len b - 2); byte_at b (len b - 1)]));
      [reflexivity|].
    f_equal. apply rebuild_extended.
    + unfold len in *. cbn [length]. lia.
    + rewrite Ld. exact D.
    + intros i Hi. unfold len in Hi. cbn [length] in Hi.
      assert (i = 0 \/ i = 1) as [-> | ->] by lia.
      * replace (7 + len data + 0) with (len b - 2) by lia. reflexivity.
      * replace (7 + len data + 1) with (len b - 1) by lia. reflexivity.
Qed.

Lemma reencode_extended_witness :
  BytesExtended (mkCapdu x00 xa4 x04 x01 [x01; x02; x03] 257)
  = Ok (hx [0x00; 0xA4; 0x04; 0x01; 0x00; 0x00; 0x03; 0x01; 0x02; 0x03;
            0x01; 0x01]).
Proof.
  apply reencode_extended.
  - vm_compute. reflexivity.
  - vm_compute. discriminate.
  - vm_compute. reflexivity.
  - intros _. discriminate.
Defined.

(** Whatever [ParseCapdu] returns is a valid command: its header is the
    first four input bytes, its data are at most 65535 bytes and fit the
    input after the header, its [Ne] lies in 0..65536, and serializing it
    with [Bytes] and parsing again returns it unchanged. *)
Theorem parsed_unit_is_valid (b : list byte) (c : Capdu) :
  ParseCapdu b = Ok c ->
  (CLA c = byte_at b 0 /\ INS c = byte_at b 1
   /\ P1 c = byte_at b 2 /\ P2 c = byte_at b 3)
  /\ len (Data c) <= 65535 /\ 4 + len (Data c) <= len b
  /\ 0 <= Ne c <= 65536
  /\ parse_after (Bytes c) ParseCapdu = Ok c.
Proof.
  intros P.
  destruct (ParseCapdu_shortest b c P) as (Hd & Hn & Hs).
  destruct (ParseCapdu_result b c P) as (C0 & C1 & C2 & C3 & L & Cases).
  split; [tauto|]. split; [exact Hd|]. split.
  - pose proof (be16_range (byte_at b 5) (byte_at b 6)).
    pose proof (Z_of_byte_range (byte_at b 4)).
    destruct Cases as
      [(Lb & D & N)|[(Lb & D & N)|[(Lb & B4 & D & N)|[(Lb & B4 & B5 & D & N)
      |[(Lb & B4 & Lc & D & N)|[(Lb & B4 & Lc & D & N)
      |[(Lb & B4 & Lc & D & N)|(Lb & B4 & Lc & D & N)]]]]]]];
      rewrite D, ?len_sub by lia; change (len (@nil byte)) with 0; lia.
  - split; [exact Hn|]. apply round_trip_minimal; assumption.
Qed.

Lemma parsed_unit_is_valid_witness :
  parse_after (Bytes (mkCapdu x00 xa4 x04 x00 [] 256)) ParseCapdu
  = Ok (mkCapdu x00 xa4 x04 x00 [] 256).
Proof.
  refine (proj2 (proj2 (proj2 (proj2
            (parsed_unit_is_valid (hx [0x00; 0xA4; 0x04; 0x00; 0x00; 0x00])
               (mkCapdu x00 xa4 x04 x00 [] 256) _))))).
  vm_compute. reflexivity.
Defined.

(** [Bytes] succeeds on every parsed command and what it returns is never
    longer than the input the command was parsed from; its length is
    [encoded_len]. *)
Theorem bytes_is_shortest (b : list byte) (c : Capdu) :
  ParseCapdu b = Ok c ->
  exists out,
    Bytes c = Ok out
    /\ len out = encoded_len (len (Data c)) (Ne c)
    /\ len out <= len b.
Proof.
  intros P. destruct (ParseCapdu_shortest b c P) as (Hd & Hn & Hs).
  destruct (Bytes_len c Hd Hn) as (out & E & L).
  exists out. repeat split; [exact E|exact L|lia].
Qed.

Lemma bytes_is_shortest_witness :
  exists out,
    Bytes (mkCapdu x00 xa4 x04 x00 [] 256) = Ok out
    /\ len out = 5
    /\ len out <= 6.
Proof.
  exact (bytes_is_shortest (hx [0x00; 0xA4; 0x04; 0x00; 0x00; 0x00])
           (mkCapdu x00 xa4 x04 x00 [] 256) eq_refl).
Defined.

(** On valid commands [Bytes] is injective.  [BytesExtended] is injective
    except for one collision: the all-empty command and the command with no
    data and [Ne = 65536] on the same header get the same bytes. *)
Theorem serializers_injective (c1 c2 : Capdu) :
  len (Data c1) <= 65535 -> 0 <= Ne c1 <= 65536 ->
  len (Data c2) <= 65535 -> 0 <= Ne c2 <= 65536 ->
  (Bytes c1 = Bytes c2 -> c1 = c2)
  /\ (BytesExtended c1 = BytesExtended c2 ->
      c1 = c2
      \/ (CLA c1 = CLA c2 /\ INS c1 = INS c2 /\ P1 c1 = P1 c2 /\ P2 c1 = P2 c2
          /\ Data c1 = [] /\ Data c2 = []
          /\ ((Ne c1 = 0 /\ Ne c2 = 65536) \/ (Ne c1 = 65536 /\ Ne c2 = 0)))).
Proof.
  intros D1 N1 D2 N2. split.
  - intros E.
    pose proof (round_trip_minimal c1 D1 N1) as R1.
    pose proof (round_trip_minimal c2 D2 N2) as R2.
    rewrite E in R1. congruence.
  - intros E.
    assert (A : forall c, len (Data c) <= 65535 -> 0 <= Ne c <= 65536 ->
                parse_after (BytesExtended c) ParseCapdu
                = Ok (mkCapdu (CLA c) (INS c) (P1 c) (P2 c) (Data c)
                        (if (len (Data c) =? 0) && (Ne c =? 0)
                         then 65536 else Ne c))).
    { intros c Dc Nc.
      destruct (Z.eqb_spec (len (Data c)) 0) as [Z0|NZ];
        [destruct (Z.eqb_spec (Ne c) 0) as [N0|NN]|]; cbn [andb].
      - apply len_zero_nil in Z0. rewrite Z0.
        apply round_trip_all_empty; assumption.
      - rewrite round_trip_extended by tauto. destruct c; reflexivity.
      - rewrite round_trip_extended; [destruct c; reflexivity|lia|lia|].
        left. intros Dn. rewrite Dn in NZ. apply NZ. reflexivity. }
    pose proof (A c1 D1 N1) as R1. pose proof (A c2 D2 N2) as R2.
    rewrite E, R2 in R1. injection R1 as H0 H1 H2 H3 H4 H5.
    destruct c1 as [a1 i1 p1 q1 d1 n1], c2 as [a2 i2 p2 q2 d2 n2].
    cbn [CLA INS P1 P2 Data Ne] in *. subst a2 i2 p2 q2 d2.
    destruct (Z.eqb_spec (len d1) 0) as [Z0|NZ]; cbn [andb] in H5;
      [apply len_zero_nil in Z0; subst d1|left; congruence].
    destruct (Z.eqb_spec n1 0), (Z.eqb_spec n2 0); subst;
      first [ left; congruence | right; repeat split; auto; lia | lia ].
Qed.

Lemma serializers_injective_witness :
  Bytes select_empty <> Bytes (mkCapdu x00 xa4 x04 x00 [] 65536)
  /\ BytesExtended select_empty
     = BytesExtended (mkCapdu x00 xa4 x04 x00 [] 65536).
Proof.
  split; [|reflexivity].
  intros E.
  assert (H : select_empty = mkCapdu x00 xa4 x04 x00 [] 65536).
  { refine (proj1 (serializers_injective select_empty
                     (mkCapdu x00 xa4 x04 x00 [] 65536) _ _ _ _) E);
      cbn [select_empty Data Ne]; unfold len; cbn [length]; lia. }
  discriminate H.
Defined.

(** ** Beyond the claims: the response codec *)

(** [ParseRapdu] and [Rapdu.Bytes] are inverse to each other: a byte sequence
    parses to a response exactly when the response serializes to it. *)
Theorem rapdu_codec_inverse (b : list byte) (r : Rapdu) :
  ParseRapdu b = Ok r <-> RapduBytes r = Ok b.
Proof.
  split.
  - rewrite ParseRapdu_closed_form. unfold ParseRapdu_cases. cbv zeta.
    rewrite Z.gtb_ltb.
    destruct (Z.ltb_spec (len b) 2); [discriminate|].
    destruct (Z.ltb_spec 65538 (len b)); [discriminate|]. cbn [orb].
    intros Heq. injection Heq as <-.
    unfold RapduBytes. consts. cbn [RData SW1 SW2].
    rewrite len_sub by lia. rewrite Z.gtb_ltb.
    destruct (Z.ltb_spec 65536 (len b - 2)); [lia|]. f_equal.
    change (sub b 0 (len b - 2) ++ [byte_at b (len b - 2); byte_at b (len b - 1)])
      with ([] ++ sub b 0 (len b - 2)
              ++ [byte_at b (len b - 2); byte_at b (len b - 1)]).
    apply layout_rebuild.
    + rewrite len_sub by lia. unfold len. cbn [length]. lia.
    + intros i Hi. unfold len in Hi. cbn [length] in Hi. lia.
    + rewrite len_sub by lia. reflexivity.
    + rewrite len_sub by lia. intros i Hi. unfold len in Hi. cbn [length] in Hi.
      change (len (@nil byte)) with 0.
      assert (i = 0 \/ i = 1) as [-> | ->] by lia.
      * replace (0 + (len b - 2) + 0) with (len b - 2) by lia. reflexivity.
      * replace (0 + (len b - 2) + 1) with (len b - 1) by lia. reflexivity.
  - intros E. 
    assert (Hd : len (RData r) <= 65536).
    { revert E. unfold RapduBytes. consts. rewrite Z.gtb_ltb.
      destruct (Z.ltb_spec 65536 (len (RData r))); [discriminate|lia]. }
    pose proof (round_trip_response r Hd) as R. rewrite E in R. exact R.
Qed.

(** No status word is in two classes, and the unclassified ones are exactly
    those other than 0x9000 whose SW1 is below 0x61, equal to 0x66 or above
    0x6F. *)
Theorem status_classes_exclusive (r : Rapdu) :
  (IsSuccess r = true -> IsWarning r = false /\ IsError r = false)
  /\ (IsWarning r = true -> IsSuccess r = false /\ IsError r = false)
  /\ (IsError r = true -> IsSuccess r = false /\ IsWarning r = false)
  /\ (IsSuccess r = false /\ IsWarning r = false /\ IsError r = false <->
      SW r <> 0x9000 /\ (Z_of_byte (SW1 r) < 0x61 \/ Z_of_byte (SW1 r) = 0x66
                          \/ 0x6F < Z_of_byte (SW1 r))).
Proof.
  pose proof (SW_value r) as HSW.
  pose proof (Z_of_byte_range (SW1 r)) as R1.
  pose proof (Z_of_byte_range (SW2 r)) as R2.
  unfold IsSuccess, IsWarning, IsError. rewrite !byte_eqb_Z.
  change (Z_of_byte x61) with 0x61. change (Z_of_byte x62) with 0x62.
  change (Z_of_byte x63) with 0x63. change (Z_of_byte x64) with 0x64.
  change (Z_of_byte x65) with 0x65.
  destruct (Z.eqb_spec (Z_of_byte (SW1 r)) 0x61);
  destruct (Z.eqb_spec (Z_of_byte (SW1 r)) 0x62);
  destruct (Z.eqb_spec (Z_of_byte (SW1 r)) 0x63);
  destruct (Z.eqb_spec (Z_of_byte (SW1 r)) 0x64);
  destruct (Z.eqb_spec (Z_of_byte (SW1 r)) 0x65);
  destruct (Z.leb_spec 0x67 (Z_of_byte (SW1 r)));
  destruct (Z.leb_spec (Z_of_byte (SW1 r)) 0x6F);
  destruct (Z.eqb_spec (SW r) 0x9000);
  cbn [orb andb]; try lia;
  repeat split; intros; try discriminate; try reflexivity; try lia;
  repeat match goal with H : _ /\ _ |- _ => destruct H end;
  try discriminate; try lia.
Qed.

Lemma status_classes_exclusive_witness :
  IsWarning (mkRapdu [] x90 x00) = false /\ IsError (mkRapdu [] x90 x00) = false.
Proof.
  apply (proj1 (status_classes_exclusive (mkRapdu [] x90 x00))).
  reflexivity.
Defined.

(** ** Beyond the claims: the hex-string adapters *)

Section HexStrings.

Variable DecodeString : list byte -> option (list byte).
Variable EncodeToString : list byte -> list byte.
Variable ToUpper : list byte -> list byte.

(** A string that decodes has two characters per decoded byte. *)
Hypothesis DecodeString_length :
  forall s b, DecodeString s = Some b -> len s = 2 * len b.

(** The upper-cased encoding of a byte sequence decodes to it. *)
Hypothesis DecodeString_ToUpper_EncodeToString :
  forall b, DecodeString (ToUpper (EncodeToString b)) = Some b.

Lemma encoded_string_length (b : list byte) :
  len (ToUpper (EncodeToString b)) = 2 * len b.
Proof.
  apply DecodeString_length, DecodeString_ToUpper_EncodeToString.
Qed.

Lemma ParseCapduHexString_encoded (b : list byte) :
  4 <= len b <= 65544 ->
  ParseCapduHexString DecodeString (ToUpper (EncodeToString b)) = inr (ParseCapdu b).
Proof.
  intros L. unfold ParseCapduHexString.
  rewrite encoded_string_length, DecodeString_ToUpper_EncodeToString.
  rewrite Z.mul_comm, Z.rem_mul by lia. cbn [Z.eqb negb].
  rewrite Z.gtb_ltb.
  destruct (Z.ltb_spec (len b * 2) 8); [lia|].
  destruct (Z.ltb_spec (65544 * 2) (len b * 2)); [lia|]. reflexivity.
Qed.

Lemma ParseRapduHexString_encoded (b : list byte) :
  2 <= len b <= 65538 ->
  ParseRapduHexString DecodeString (ToUpper (EncodeToString b)) = inr (ParseRapdu b).
Proof.
  intros L. unfold ParseRapduHexString.
  rewrite encoded_string_length, DecodeString_ToUpper_EncodeToString.
  rewrite Z.mul_comm, Z.rem_mul by lia. cbn [Z.eqb negb].
  rewrite Z.gtb_ltb.
  destruct (Z.ltb_spec (len b * 2) 4); [lia|].
  destruct (Z.ltb_spec 131076 (len b * 2)); [lia|]. reflexivity.
Qed.

(** [Capdu.String] succeeds on every valid command, the string has 8 to
    131088 characters, and [ParseCapduHexString] of it returns the command. *)
Theorem capdu_hex_round_trip (c : Capdu) :
  len (Data c) <= 65535 -> 0 <= Ne c <= 65536 ->
  exists s,
    CapduString EncodeToString ToUpper c = Ok s
    /\ 8 <= len s <= 131088
    /\ ParseCapduHexString DecodeString s = inr (Ok c).
Proof.
  intros Hd Hn.
  destruct (Bytes_len c Hd Hn) as (out & E & _).
  pose proof (round_trip_minimal c Hd Hn) as R.
  rewrite E in R. unfold parse_after in R. cbn [bind] in R.
  destruct (ParseCapdu_result out c R) as (_ & _ & _ & _ & L & _).
  exists (ToUpper (EncodeToString out)).
  unfold CapduString. rewrite E. cbn [bind].
  split; [reflexivity|]. rewrite encoded_string_length.
  split; [lia|]. rewrite ParseCapduHexString_encoded by lia.
  rewrite R. reflexivity.
Qed.

(** [Rapdu.String] succeeds on every valid response, the string has 4 to
    131076 characters, and [ParseRapduHexString] of it returns the response. *)
Theorem rapdu_hex_round_trip (r : Rapdu) :
  len (RData r) <= 65536 ->
  exists s,
    RapduString EncodeToString ToUpper r = Ok s
    /\ 4 <= len s <= 131076
    /\ ParseRapduHexString DecodeString s = inr (Ok r).
Proof.
  intros Hd. pose proof (len_nonneg (RData r)) as Hd0.
  pose proof (round_trip_response r Hd) as R.
  unfold RapduString. revert R. unfold RapduBytes. consts. rewrite Z.gtb_ltb.
  destruct (Z.ltb_spec 65536 (len (RData r))); [lia|].
  unfold parse_after. cbn [bind]. intros R.
  assert (L : len (RData r ++ [SW1 r; SW2 r]) = len (RData r) + 2)
    by (len_norm; lia).
  exists (ToUpper (EncodeToString (RData r ++ [SW1 r; SW2 r]))).
  split; [reflexivity|]. rewrite encoded_string_length.
  split; [lia|]. rewrite ParseRapduHexString_encoded by lia.
  rewrite R. reflexivity.
Qed.

(** The length checks of the hex adapters cover those of the byte parsers:
    an adapter never passes on the length error of [ParseCapdu] or of
    [ParseRapdu]. *)
Theorem hex_length_check_subsumes_parser_check (s : list byte) (n : Z) :
  ParseCapduHexString DecodeString s <> inr (Err (ErrCapduLength n))
  /\ ParseRapduHexString DecodeString s <> inr (Err (ErrRapduLength n)).
Proof.
  split.
  - unfold ParseCapduHexString. rewrite Z.gtb_ltb.
    destruct (negb _); [discriminate|].
    destruct (Z.ltb_spec (len s) 8); [discriminate|].
    destruct (Z.ltb_spec (65544 * 2) (len s)); [discriminate|]. cbn [orb].
    destruct (DecodeString s) as [b|] eqn:D; [|discriminate].
    apply DecodeString_length in D.
    rewrite ParseCapdu_closed_form. unfold ParseCapdu_cases. cbv zeta.
    rewrite Z.gtb_ltb.
    destruct (Z.ltb_spec (len b) 4); [lia|].
    destruct (Z.ltb_spec 65544 (len b)); [lia|]. cbn [orb].
    repeat match goal with
           | |- context [if ?x then _ else _] => destruct x
           end; discriminate.
  - unfold ParseRapduHexString. rewrite Z.gtb_ltb.
    destruct (negb _); [discriminate|].
    destruct (Z.ltb_spec (len s) 4); [discriminate|].
    destruct (Z.ltb_spec 131076 (len s)); [discriminate|]. cbn [orb].
    destruct (DecodeString s) as [b|] eqn:D; [|discriminate].
    apply DecodeString_length in D.
    rewrite ParseRapdu_closed_form. unfold ParseRapdu_cases. cbv zeta.
    rewrite Z.gtb_ltb.
    destruct (Z.ltb_spec (len b) 2); [lia|].
    destruct (Z.ltb_spec 65538 (len b)); [lia|]. discriminate.
Qed.

End HexStrings.

Lemma hex_pair_encoded (x : byte) :
  hex_pair (upper_byte (hex_digit (Z.shiftr (Z_of_byte x) 4)))
           (upper_byte (hex_digit (Z.land (Z_of_byte x) 0x0F)))
  = Some x.
Proof. destruct x; vm_compute; reflexivity. Qed.

Lemma hex_decode_length (s : list byte) :
  (forall b, hex_decode s = Some b -> len s = 2 * len b)
  /\ (forall x b, hex_decode (x :: s) = Some b -> len (x :: s) = 2 * len b).
Proof.
  induction s as [|y s [IH1 IH2]].
  - split.
    + intros b H. injection H as <-. reflexivity.
    + intros x b H. discriminate.
  - split; [exact (IH2 y)|].
    intros x b H. cbn [hex_decode] in H.
    destruct (hex_pair x y); [|discriminate].
    destruct (hex_decode s) as [r|] eqn:E; [|discriminate].
    injection H as <-. specialize (IH1 r eq_refl).
    rewrite !len_cons. lia.
Qed.

Lemma hex_decode_upper_encode (b : list byte) :
  hex_decode (ascii_upper (hex_encode b)) = Some b.
Proof.
  induction b as [|x b IH]; [reflexivity|].
  unfold ascii_upper, hex_encode in *. cbn [flat_map app map hex_decode].
  rewrite hex_pair_encoded, IH. reflexivity.
Qed.

Lemma capdu_hex_round_trip_witness :
  exists s,
    CapduString hex_encode ascii_upper
      (mkCapdu x00 xa4 x04 x00 [x01; x02; x03] 65536) = Ok s
    /\ 8 <= len s <= 131088
    /\ ParseCapduHexString hex_decode s
       = inr (Ok (mkCapdu x00 xa4 x04 x00 [x01; x02; x03] 65536)).
Proof.
  apply (capdu_hex_round_trip hex_decode hex_encode ascii_upper
           (fun s => proj1 (hex_decode_length s)) hex_decode_upper_encode).
  - vm_compute. discriminate.
  - cbn [Ne]. lia.
Defined.

Lemma rapdu_hex_round_trip_witness :
  exists s,
    RapduString hex_encode ascii_upper (mkRapdu [x01; x02; x03] x90 x00) = Ok s
    /\ 4 <= len s <= 131076
    /\ ParseRapduHexString hex_decode s
       = inr (Ok (mkRapdu [x01; x02; x03] x90 x00)).
Proof.
  apply (rapdu_hex_round_trip hex_decode hex_encode ascii_upper
           (fun s => proj1 (hex_decode_length s)) hex_decode_upper_encode).
  vm_compute. discriminate.
Defined.

Lemma hex_length_check_subsumes_parser_check_witness :
  ParseCapduHexString hex_decode
    [x30; x30; x41; x34; x30; x34; x30; x30; x30; x30]
  <> inr (Err (ErrCapduLength 5))
  /\ ParseRapduHexString hex_decode [x39; x30; x30; x30]
     <> inr (Err (ErrRapduLength 2)).
Proof.
  split.
  - exact (proj1 (hex_length_check_subsumes_parser_check hex_decode
                    (fun s => proj1 (hex_decode_length s)) _ 5)).
  - exact (proj2 (hex_length_check_subsumes_parser_check hex_decode
                    (fun s => proj1 (hex_decode_length s)) _ 2)).
Defined.

Example CapduString_case4_std :
  CapduString hex_encode ascii_upper (mkCapdu x00 xa4 x04 x00 [x01; x02] 3)
  = Ok [x30; x30; x41; x34; x30; x34; x30; x30; x30; x32; x30; x31; x30; x32;
        x30; x33].
Proof. vm_compute. reflexivity. Qed.
